(** * Neuro Supply Chain: the on-ledger contract [supply_chain::supply_chain]

    A shallow embedding of [contracts/sources/supply_chain.move] together
    with the small part of the Move / Sui runtime the contract calls
    ([std::string], [sui::object], [sui::tx_context], [sui::clock],
    [sui::event], [sui::transfer]), and the properties of the ledger
    contract derived from it.

    Conventions.
    - [u64] values are [Z]; the functions of this contract do no arithmetic
      on them, so only the comparison [<= 100] and the range [is_u64] of an
      argument matter.
    - [vector<u8>] is [list byte].
    - An entry function is a computation in the monad [M]: it threads the
      transaction context, the events emitted so far and the object store,
      and either returns or aborts with the module and code of the abort.
      The state reached at the point of an abort is kept in the result, so
      that "nothing happened before the abort" is a statement about the
      function and not only about the roll-back of the runtime.
    - A transaction ([execute]) runs one entry function against the ledger
      and commits its effects on success only. *)

From Stdlib Require Import ZArith NArith List Bool Lia.
From Stdlib Require Import Strings.Byte Strings.String DecimalString.
From stdpp Require Import base option gmap.

Import ListNotations.
Local Open Scope Z_scope.

(* ===================================================================== *)
(** ** Primitive types of the platform *)
(* ===================================================================== *)

(** [u64]: the range of a well-typed argument. *)
Definition is_u64 (n : Z) : Prop := 0 <= n < 2 ^ 64.

(** [address]: an account address. *)
Definition address := N.

(** [sui::object::ID]. The platform derives the address of a new object
    from the digest of the creating transaction and the number of objects
    that transaction has created so far; the derivation is collision free,
    which the pair itself models. *)
Definition ID : Type := (N * N)%type.

(** [sui::object::UID]: [struct UID has store { id: ID }]. *)
Record UID : Type := mkUID { uid_to_inner : ID }.

(** [sui::tx_context::TxContext], restricted to what the contract reads:
    the sender, the transaction digest and the counter of created ids. *)
Record TxContext : Type := mkTxContext {
  ctx_sender : address;
  ctx_tx_hash : N;
  ctx_ids_created : N
}.

(** [sui::clock::Clock]. *)
Record Clock : Type := mkClock { clock_timestamp_ms : Z }.

(** Where an abort comes from: Move reports the module with the code. *)
Inductive ModuleId : Type :=
| mod_std_string
| mod_supply_chain.

(* ===================================================================== *)
(** ** Computations that can abort *)
(* ===================================================================== *)

Inductive Outcome (A : Type) : Type :=
| Return (a : A)
| Abort (m : ModuleId) (code : Z).
Arguments Return {A} a.
Arguments Abort {A} m code.

(** A computation over a state [S]: it returns or aborts, and hands back
    the state it reached either way. *)
Definition M (S A : Type) : Type := S -> Outcome A * S.

Definition ret {S A} (a : A) : M S A := fun st => (Return a, st).

Definition bind {S A B} (c : M S A) (k : A -> M S B) : M S B :=
  fun st =>
    match c st with
    | (Return a, st1) => k a st1
    | (Abort m code, st1) => (Abort m code, st1)
    end.

Definition abort {S A} (m : ModuleId) (code : Z) : M S A :=
  fun st => (Abort m code, st).

Notation "'let!' x ':=' c1 'in' c2" := (bind c1 (fun x => c2))
  (at level 10, x name, c1 at level 100, c2 at level 200).
Notation "c1 ;; c2" := (bind c1 (fun _ => c2))
  (at level 100, c2 at level 200, right associativity).

(** [assert!(cond, code)] inside [supply_chain::supply_chain]. *)
Definition assert {S} (cond : bool) (code : Z) : M S unit :=
  if cond then ret tt else abort mod_supply_chain code.

(* ===================================================================== *)
(** ** [std::string] *)
(* ===================================================================== *)

Module string.

(** [struct String has copy, drop, store { bytes: vector<u8> }] *)
Record String : Type := mkString { bytes : list byte }.

(** [const EINVALID_UTF8: u64 = 1;] *)
Definition EINVALID_UTF8 : Z := 1.

Definition byte_in (lo hi : N) (b : byte) : bool :=
  ((lo <=? Byte.to_N b) && (Byte.to_N b <=? hi))%N.

(** A continuation byte, [0x80..0xBF]. *)
Definition is_cont (b : byte) : bool := byte_in 0x80 0xBF b.

(** Second byte of a three-byte sequence: excludes overlong encodings
    after [0xE0] and the surrogates after [0xED]. *)
Definition second_of_3 (b0 b1 : byte) : bool :=
  if byte_in 0xE0 0xE0 b0 then byte_in 0xA0 0xBF b1
  else if byte_in 0xED 0xED b0 then byte_in 0x80 0x9F b1
  else is_cont b1.

(** Second byte of a four-byte sequence: excludes overlong encodings
    after [0xF0] and code points above [U+10FFFF] after [0xF4]. *)
Definition second_of_4 (b0 b1 : byte) : bool :=
  if byte_in 0xF0 0xF0 b0 then byte_in 0x90 0xBF b1
  else if byte_in 0xF4 0xF4 b0 then byte_in 0x80 0x8F b1
  else is_cont b1.

(** [native fun internal_check_utf8(v: &vector<u8>): bool]: the native
    accepts exactly the well-formed UTF-8 byte sequences (Unicode,
    table 3-7). *)
Fixpoint internal_check_utf8 (v : list byte) : bool :=
  match v with
  | [] => true
  | b0 :: rest =>
      if byte_in 0x00 0x7F b0 then internal_check_utf8 rest
      else if byte_in 0xC2 0xDF b0 then
        match rest with
        | b1 :: rest1 => is_cont b1 && internal_check_utf8 rest1
        | _ => false
        end
      else if byte_in 0xE0 0xEF b0 then
        match rest with
        | b1 :: b2 :: rest2 =>
            second_of_3 b0 b1 && is_cont b2 && internal_check_utf8 rest2
        | _ => false
        end
      else if byte_in 0xF0 0xF4 b0 then
        match rest with
        | b1 :: b2 :: b3 :: rest3 =>
            second_of_4 b0 b1 && is_cont b2 && is_cont b3
            && internal_check_utf8 rest3
        | _ => false
        end
      else false
  end.

(** [public fun utf8(bytes: vector<u8>): String]:
    [assert!(internal_check_utf8(&bytes), EINVALID_UTF8); String{bytes}] *)
Definition utf8 {S} (bytes : list byte) : M S String :=
  if internal_check_utf8 bytes
  then ret (mkString bytes)
  else abort mod_std_string EINVALID_UTF8.

End string.

Abbreviation String := string.String.

(* ===================================================================== *)
(** ** The structs of [supply_chain::supply_chain] *)
(* ===================================================================== *)

(** [struct Shipment has key, store] *)
Record Shipment : Type := mkShipment {
  id : UID;
  shipment_id : String;
  ai_summary : String;
  confidence_score : Z;
  timestamp : Z;
  oracle_signature : list byte;
  oracle_address : address
}.

(** [struct ShipmentRegistry has key] *)
Record ShipmentRegistry : Type := mkShipmentRegistry {
  registry_id : UID;
  owner : address
}.

(** [struct ShipmentUpdated has copy, drop] *)
Record ShipmentUpdated : Type := mkShipmentUpdated {
  updated_shipment_id : String;
  updated_confidence_score : Z;
  updated_timestamp : Z;
  updated_oracle_address : address
}.

(** [struct ShipmentCreated has copy, drop] *)
Record ShipmentCreated : Type := mkShipmentCreated {
  created_shipment_id : String;
  created_timestamp : Z
}.

(** Field assignment through a [&mut Shipment]. *)
Definition set_ai_summary (v : String) (s : Shipment) : Shipment :=
  mkShipment (id s) (shipment_id s) v (confidence_score s) (timestamp s)
             (oracle_signature s) (oracle_address s).
Definition set_confidence_score (v : Z) (s : Shipment) : Shipment :=
  mkShipment (id s) (shipment_id s) (ai_summary s) v (timestamp s)
             (oracle_signature s) (oracle_address s).
Definition set_timestamp (v : Z) (s : Shipment) : Shipment :=
  mkShipment (id s) (shipment_id s) (ai_summary s) (confidence_score s) v
             (oracle_signature s) (oracle_address s).
Definition set_oracle_signature (v : list byte) (s : Shipment) : Shipment :=
  mkShipment (id s) (shipment_id s) (ai_summary s) (confidence_score s)
             (timestamp s) v (oracle_address s).
Definition set_oracle_address (v : address) (s : Shipment) : Shipment :=
  mkShipment (id s) (shipment_id s) (ai_summary s) (confidence_score s)
             (timestamp s) (oracle_signature s) v.

(* ===================================================================== *)
(** ** Objects, events and the state of a running transaction *)
(* ===================================================================== *)

(** Ownership of an object in the store. *)
Inductive Owner : Type :=
| AddressOwner (a : address)
| Shared.

(** The objects this package can put in the store. *)
Inductive Object : Type :=
| ObjShipment (s : Shipment)
| ObjRegistry (r : ShipmentRegistry).

(** The events this package can emit. *)
Inductive Event : Type :=
| EvShipmentUpdated (e : ShipmentUpdated)
| EvShipmentCreated (e : ShipmentCreated).

(** The ability [key]: a struct whose first field is its [UID]. *)
Class Key (T : Type) : Type := {
  object_uid : T -> UID;
  to_object : T -> Object
}.

#[export] Instance Shipment_key : Key Shipment :=
  {| object_uid := id; to_object := ObjShipment |}.
#[export] Instance ShipmentRegistry_key : Key ShipmentRegistry :=
  {| object_uid := registry_id; to_object := ObjRegistry |}.

(** The abilities [copy, drop] of an event struct. *)
Class IsEvent (T : Type) : Type := { to_event : T -> Event }.

#[export] Instance ShipmentUpdated_event : IsEvent ShipmentUpdated :=
  {| to_event := EvShipmentUpdated |}.
#[export] Instance ShipmentCreated_event : IsEvent ShipmentCreated :=
  {| to_event := EvShipmentCreated |}.

(** What a running transaction has in hand: its context, the events it
    has emitted and the object store with the transfers it has made. *)
Record TxState : Type := mkTxState {
  tx_ctx : TxContext;
  tx_events : list Event;
  tx_objects : gmap ID (Owner * Object)
}.


Module tx_context.
(** [public fun sender(self: &TxContext): address] *)
Definition sender : M TxState address := fun st => (Return (ctx_sender (tx_ctx st)), st).

(** [public fun fresh_object_address(ctx: &mut TxContext): address]:
    derives the id from the digest and [ids_created], then increments
    [ids_created]. *)
Definition fresh_object_address : M TxState ID :=
  fun st =>
    let ctx := tx_ctx st in
    (Return (ctx_tx_hash ctx, ctx_ids_created ctx),
     mkTxState
       (mkTxContext (ctx_sender ctx) (ctx_tx_hash ctx) (N.succ (ctx_ids_created ctx)))
       (tx_events st) (tx_objects st)).
End tx_context.

Module object.
(** [public fun new(ctx: &mut TxContext): UID] *)
Definition new : M TxState UID :=
  let! a := tx_context.fresh_object_address in
  ret (mkUID a).
End object.

Module clock.
(** [public fun timestamp_ms(clock: &Clock): u64] *)
Definition timestamp_ms (c : Clock) : Z := clock_timestamp_ms c.
End clock.

Module event.
(** [public fun emit<T: copy + drop>(event: T)] *)
Definition emit {T} `{IsEvent T} (e : T) : M TxState unit :=
  fun st =>
    (Return tt, mkTxState (tx_ctx st) (tx_events st ++ [to_event e]) (tx_objects st)).
End event.

Module transfer.
Definition put {T} `{Key T} (obj : T) (o : Owner) : M TxState unit :=
  fun st =>
    (Return tt,
     mkTxState (tx_ctx st) (tx_events st)
       (<[uid_to_inner (object_uid obj) := (o, to_object obj)]> (tx_objects st))).

(** [public fun transfer<T: key>(obj: T, recipient: address)] *)
Definition transfer {T} `{Key T} (obj : T) (recipient : address) : M TxState unit :=
  put obj (AddressOwner recipient).

(** [public fun share_object<T: key>(obj: T)] *)
Definition share_object {T} `{Key T} (obj : T) : M TxState unit :=
  put obj Shared.
End transfer.

Module vector.
(** [vector::empty<u8>()] *)
Definition empty : list byte := [].
(** [vector::length(&v)] *)
Definition length (v : list byte) : Z := Z.of_nat (List.length v).
End vector.

(* ===================================================================== *)
(** ** The functions of [supply_chain::supply_chain] *)
(* ===================================================================== *)

(** Error codes *)
Definition EInvalidConfidenceScore : Z := 1.
Definition EInvalidSignature : Z := 2.
Definition EUnauthorized : Z := 3.

(** [fun init(ctx: &mut TxContext)] *)
Definition init : M TxState unit :=
  let! uid := object.new in
  let! who := tx_context.sender in
  let registry := {| registry_id := uid; owner := who |} in
  transfer.share_object registry.

(** [public entry fun oracle_update(shipment_id, ai_summary,
    confidence_score, oracle_signature, clock, ctx)] *)
Definition oracle_update (shipment_id ai_summary : list byte)
    (confidence_score : Z) (oracle_signature : list byte) (clock : Clock) : M TxState unit :=
  assert (confidence_score <=? 100) EInvalidConfidenceScore ;;
  let! shipment_id_str := string.utf8 shipment_id in
  let! ai_summary_str := string.utf8 ai_summary in
  let timestamp := clock.timestamp_ms clock in
  let! oracle_addr := tx_context.sender in
  let! uid := object.new in
  let shipment :=
    {| id := uid;
       shipment_id := shipment_id_str;
       ai_summary := ai_summary_str;
       confidence_score := confidence_score;
       timestamp := timestamp;
       oracle_signature := oracle_signature;
       oracle_address := oracle_addr |} in
  event.emit {| updated_shipment_id := shipment_id_str;
                updated_confidence_score := confidence_score;
                updated_timestamp := timestamp;
                updated_oracle_address := oracle_addr |} ;;
  transfer.transfer shipment oracle_addr.

(** [public entry fun create_shipment(shipment_id, ai_summary,
    confidence_score, clock, ctx)] *)
Definition create_shipment (shipment_id ai_summary : list byte)
    (confidence_score : Z) (clock : Clock) : M TxState unit :=
  assert (confidence_score <=? 100) EInvalidConfidenceScore ;;
  let! shipment_id_str := string.utf8 shipment_id in
  let! ai_summary_str := string.utf8 ai_summary in
  let timestamp := clock.timestamp_ms clock in
  let! creator := tx_context.sender in
  let! uid := object.new in
  let shipment :=
    {| id := uid;
       shipment_id := shipment_id_str;
       ai_summary := ai_summary_str;
       confidence_score := confidence_score;
       timestamp := timestamp;
       oracle_signature := vector.empty;
       oracle_address := creator |} in
  event.emit {| created_shipment_id := shipment_id_str;
                created_timestamp := timestamp |} ;;
  transfer.transfer shipment creator.

(** [public entry fun update_shipment(shipment: &mut Shipment, new_summary,
    new_confidence, new_signature, clock, ctx)]. The [&mut Shipment] is an
    in-out parameter: the function returns the record as it leaves it. *)
Definition update_shipment (shipment : Shipment) (new_summary : list byte)
    (new_confidence : Z) (new_signature : list byte) (clock : Clock) : M TxState Shipment :=
  assert (new_confidence <=? 100) EInvalidConfidenceScore ;;
  let! new_summary_str := string.utf8 new_summary in
  let shipment := set_ai_summary new_summary_str shipment in
  let shipment := set_confidence_score new_confidence shipment in
  let shipment := set_timestamp (clock.timestamp_ms clock) shipment in
  let shipment := set_oracle_signature new_signature shipment in
  let! who := tx_context.sender in
  let shipment := set_oracle_address who shipment in
  event.emit {| updated_shipment_id := shipment_id shipment;
                updated_confidence_score := new_confidence;
                updated_timestamp := timestamp shipment;
                updated_oracle_address := oracle_address shipment |} ;;
  ret shipment.

(** Accessor functions *)
Definition get_shipment_id (shipment : Shipment) : String := shipment_id shipment.
Definition get_ai_summary (shipment : Shipment) : String := ai_summary shipment.
Definition get_confidence_score (shipment : Shipment) : Z := confidence_score shipment.
Definition get_timestamp (shipment : Shipment) : Z := timestamp shipment.
Definition get_oracle_address (shipment : Shipment) : address := oracle_address shipment.
Definition get_signature_length (shipment : Shipment) : Z :=
  vector.length (oracle_signature shipment).

(* ===================================================================== *)
(** ** The ledger: transactions against the package *)
(* ===================================================================== *)

(** The ledger: the object store, the log of emitted events, the shared
    [Clock] and the digest the next transaction gets. *)
Record Ledger : Type := mkLedger {
  objects : gmap ID (Owner * Object);
  event_log : list Event;
  ledger_clock : Clock;
  next_tx_hash : N
}.

(** A call of an entry function, with the arguments the caller supplies.
    The [&mut Shipment] of [update_shipment] is named by its object id;
    the [Clock] and the [TxContext] are supplied by the ledger. *)
Inductive Call : Type :=
| CallOracleUpdate (shipment_id ai_summary : list byte) (confidence_score : Z)
                   (oracle_signature : list byte)
| CallCreateShipment (shipment_id ai_summary : list byte) (confidence_score : Z)
| CallUpdateShipment (shipment : ID) (new_summary : list byte) (new_confidence : Z)
                     (new_signature : list byte).

Record Transaction : Type := mkTransaction {
  tx_sender : address;
  tx_call : Call
}.

Inductive Status : Type :=
| Success
| MoveAbort (m : ModuleId) (code : Z)
| InvalidInput.

(** The [u64] argument of a call. *)
Definition call_confidence (c : Call) : Z :=
  match c with
  | CallOracleUpdate _ _ n _ => n
  | CallCreateShipment _ _ n => n
  | CallUpdateShipment _ _ n _ => n
  end.

(** A call is well typed when its [u64] argument is one. *)
Definition wf_call (c : Call) : Prop := is_u64 (call_confidence c).

Definition begin_tx (L : Ledger) (who : address) : TxState :=
  mkTxState (mkTxContext who (next_tx_hash L) 0%N) [] (objects L).

(** A successful transaction commits its store and appends its events. *)
Definition commit (L : Ledger) (store : gmap ID (Owner * Object)) (evs : list Event) : Ledger :=
  mkLedger store (event_log L ++ evs) (ledger_clock L) (N.succ (next_tx_hash L)).

(** An aborted transaction leaves the store and the log as they were. *)
Definition revert (L : Ledger) : Ledger :=
  mkLedger (objects L) (event_log L) (ledger_clock L) (N.succ (next_tx_hash L)).

(** Who may pass an object by [&mut]: the address that owns it, or anyone
    when it is shared. *)
Definition may_use (who : address) (o : Owner) : bool :=
  match o with
  | AddressOwner a => N.eqb a who
  | Shared => true
  end.

Definition execute (L : Ledger) (tx : Transaction) : Ledger * Status :=
  let st0 := begin_tx L (tx_sender tx) in
  match tx_call tx with
  | CallOracleUpdate sid summary score sig =>
      match oracle_update sid summary score sig (ledger_clock L) st0 with
      | (Return _, st) => (commit L (tx_objects st) (tx_events st), Success)
      | (Abort m code, _) => (revert L, MoveAbort m code)
      end
  | CallCreateShipment sid summary score =>
      match create_shipment sid summary score (ledger_clock L) st0 with
      | (Return _, st) => (commit L (tx_objects st) (tx_events st), Success)
      | (Abort m code, _) => (revert L, MoveAbort m code)
      end
  | CallUpdateShipment oid summary score sig =>
      match objects L !! oid with
      | Some (o, ObjShipment s) =>
          if may_use (tx_sender tx) o then
            match update_shipment s summary score sig (ledger_clock L) st0 with
            | (Return s', st) =>
                (commit L (<[oid := (o, ObjShipment s')]> (tx_objects st)) (tx_events st),
                 Success)
            | (Abort m code, _) => (revert L, MoveAbort m code)
            end
          else (L, InvalidInput)
      | _ => (L, InvalidInput)
      end
  end.

(** Publishing the package runs [init] once, in the first transaction. *)
Definition publish (publisher : address) (now : Clock) : Ledger :=
  let st0 := mkTxState (mkTxContext publisher 0%N 0%N) [] ∅ in
  let st := snd (init st0) in
  mkLedger (tx_objects st) (tx_events st) now 1%N.

(** The shared clock only moves forward. *)
Definition tick (now : Clock) (L : Ledger) : Ledger :=
  mkLedger (objects L) (event_log L) now (next_tx_hash L).

(** The ledgers the package can be in: published by [publisher], then any
    sequence of well-typed calls and clock ticks. *)
Inductive reachable (publisher : address) : Ledger -> Prop :=
| reach_publish (now : Clock) :
    is_u64 (clock_timestamp_ms now) ->
    reachable publisher (publish publisher now)
| reach_execute (L : Ledger) (tx : Transaction) :
    reachable publisher L ->
    wf_call (tx_call tx) ->
    reachable publisher (fst (execute L tx))
| reach_tick (L : Ledger) (now : Clock) :
    reachable publisher L ->
    clock_timestamp_ms (ledger_clock L) <= clock_timestamp_ms now ->
    is_u64 (clock_timestamp_ms now) ->
    reachable publisher (tick now L).

(** One record per [shipment_id]: two records with the same [shipment_id]
    are the same object. *)
Definition unique_shipment_ids (L : Ledger) : Prop :=
  forall (i j : ID) (oi oj : Owner) (si sj : Shipment),
    objects L !! i = Some (oi, ObjShipment si) ->
    objects L !! j = Some (oj, ObjShipment sj) ->
    shipment_id si = shipment_id sj ->
    i = j.

(** The notification each kind of record change carries. *)
Definition updated_event_of (s : Shipment) : Event :=
  EvShipmentUpdated
    {| updated_shipment_id := shipment_id s;
       updated_confidence_score := confidence_score s;
       updated_timestamp := timestamp s;
       updated_oracle_address := oracle_address s |}.

Definition created_event_of (s : Shipment) : Event :=
  EvShipmentCreated
    {| created_shipment_id := shipment_id s;
       created_timestamp := timestamp s |}.

(** The id of the first object a transaction on [L] creates. *)
Definition first_id (L : Ledger) : ID := (next_tx_hash L, 0%N).

(** The record [oracle_update] builds. *)
Definition oracle_record (L : Ledger) (who : address)
    (sid summary : list byte) (score : Z) (sig : list byte) : Shipment :=
  {| id := mkUID (first_id L);
     shipment_id := string.mkString sid;
     ai_summary := string.mkString summary;
     confidence_score := score;
     timestamp := clock_timestamp_ms (ledger_clock L);
     oracle_signature := sig;
     oracle_address := who |}.

(** The record [update_shipment] leaves behind. *)
Definition updated_record (s : Shipment) (who : address) (now : Clock)
    (summary : list byte) (score : Z) (sig : list byte) : Shipment :=
  {| id := id s;
     shipment_id := shipment_id s;
     ai_summary := string.mkString summary;
     confidence_score := score;
     timestamp := clock_timestamp_ms now;
     oracle_signature := sig;
     oracle_address := who |}.

(** Every record holds a score in [[0,100]]. *)
Definition scores_in_range (L : Ledger) : Prop :=
  forall (oid : ID) (o : Owner) (s : Shipment),
    objects L !! oid = Some (o, ObjShipment s) ->
    0 <= confidence_score s <= 100.

(** Every object was created by a transaction that has already run. *)
Definition ids_are_past (L : Ledger) : Prop :=
  forall (oid : ID) (x : Owner * Object),
    objects L !! oid = Some x -> (fst oid < next_tx_hash L)%N.

(** The registry [init] creates for [publisher]. *)
Definition the_registry (publisher : address) : Owner * Object :=
  (Shared, ObjRegistry {| registry_id := mkUID (0%N, 0%N); owner := publisher |}).

(** Every record is owned by an address. *)
Definition shipments_are_owned (L : Ledger) : Prop :=
  forall (oid : ID) (o : Owner) (s : Shipment),
    objects L !! oid = Some (o, ObjShipment s) -> exists a, o = AddressOwner a.

(** The registry of [publisher] is in the store, and it is the only one. *)
Definition one_registry (publisher : address) (L : Ledger) : Prop :=
  objects L !! (0%N, 0%N) = Some (the_registry publisher) /\
  forall (oid : ID) (o : Owner) (r : ShipmentRegistry),
    objects L !! oid = Some (o, ObjRegistry r) -> oid = (0%N, 0%N).

(** *** A concrete run, used to exercise the statements below *)
Module Scenario.
Definition text (s : string) : list byte := list_byte_of_string s.
Definition oracle : address := 7%N.
Definition genesis : Ledger := publish oracle (mkClock 1000).
Definition submit : Transaction :=
  mkTransaction oracle
    (CallOracleUpdate (text "SHIP-1") (text "delay 2h") 82 (text "not a signature")).
Definition once : Ledger := fst (execute genesis submit).
Definition twice : Ledger := fst (execute once submit).
Definition revise : Transaction :=
  mkTransaction oracle
    (CallUpdateShipment (1%N, 0%N) (text "delay 5h") 90 (text "still not one")).
Definition revised : Ledger := fst (execute once revise).
Definition the_record : Shipment :=
  oracle_record genesis oracle (text "SHIP-1") (text "delay 2h") 82 (text "not a signature").
Definition st0 : TxState := begin_tx genesis oracle.
(** [0xFF] never occurs in UTF-8. *)
Definition bad_text : list byte := [Byte.xff].
End Scenario.

(* ===================================================================== *)
(** ** Further invariants of the ledger *)
(* ===================================================================== *)

(** A sequence of transactions, each run on the ledger the previous one
    left. *)
Definition run (L : Ledger) (txs : list Transaction) : Ledger :=
  fold_left (fun L tx => fst (execute L tx)) txs L.

(** A record is stored under the id it carries. *)
Definition keys_match_ids (L : Ledger) : Prop :=
  forall (oid : ID) (o : Owner) (s : Shipment),
    objects L !! oid = Some (o, ObjShipment s) -> uid_to_inner (id s) = oid.

(** A record belongs to the address it names as its attester. *)
Definition owned_by_attester (L : Ledger) : Prop :=
  forall (oid : ID) (o : Owner) (s : Shipment),
    objects L !! oid = Some (o, ObjShipment s) -> o = AddressOwner (oracle_address s).

(** The two texts of a record are well-formed UTF-8. *)
Definition texts_are_utf8 (L : Ledger) : Prop :=
  forall (oid : ID) (o : Owner) (s : Shipment),
    objects L !! oid = Some (o, ObjShipment s) ->
    string.internal_check_utf8 (string.bytes (shipment_id s)) = true /\
    string.internal_check_utf8 (string.bytes (ai_summary s)) = true.

(** No record is dated after the ledger's clock. *)
Definition timestamps_are_past (L : Ledger) : Prop :=
  forall (oid : ID) (o : Owner) (s : Shipment),
    objects L !! oid = Some (o, ObjShipment s) ->
    timestamp s <= clock_timestamp_ms (ledger_clock L).

(** The current state of a record is in the event log. *)
Definition records_are_logged (L : Ledger) : Prop :=
  forall (oid : ID) (o : Owner) (s : Shipment),
    objects L !! oid = Some (o, ObjShipment s) ->
    In (updated_event_of s) (event_log L) \/ In (created_event_of s) (event_log L).

(* ===================================================================== *)
(** ** JavaScript values used by the front end *)
(* ===================================================================== *)

Module js.

(** A JavaScript string: its sequence of UTF-16 code units. *)
Definition jsstring : Type := list N.

(** A string literal of the source (ASCII). *)
Definition lit (s : string) : jsstring := map Byte.to_N (list_byte_of_string s).

(** Truthiness of a string that may be [null] or [undefined]: only a
    non-empty string is truthy. *)
Definition truthy (v : option jsstring) : bool :=
  match v with
  | Some (_ :: _) => true
  | _ => false
  end.

(** [v || d] for such a value and a string [d]. *)
Definition or_else (v : option jsstring) (d : jsstring) : jsstring :=
  match v with
  | Some (c :: r) => c :: r
  | _ => d
  end.

(** An index argument of [slice]: negative counts from the end, and the
    result is clamped to the string. *)
Definition relative_index (len i : Z) : Z :=
  if i <? 0 then Z.max (len + i) 0 else Z.min i len.

(** [s.slice(start, end)]; [end] is [None] when omitted. *)
Definition slice (s : jsstring) (start : Z) (end_ : option Z) : jsstring :=
  let len := Z.of_nat (length s) in
  let from := relative_index len start in
  let to := match end_ with Some e => relative_index len e | None => len end in
  firstn (Z.to_nat (Z.max (to - from) 0)) (skipn (Z.to_nat from) s).

(** [s.substring(start, end)]: both clamped to the string, swapped when
    out of order. *)
Definition substring (s : jsstring) (start end_ : Z) : jsstring :=
  let len := Z.of_nat (length s) in
  let a := Z.min (Z.max start 0) len in
  let b := Z.min (Z.max end_ 0) len in
  firstn (Z.to_nat (Z.max a b - Z.min a b)) (skipn (Z.to_nat (Z.min a b)) s).

(** [s.split(c)] for a one-character separator: the segments between the
    separators, at least one. *)
Fixpoint split (c : N) (s : jsstring) : list jsstring :=
  match s with
  | [] => [[]]
  | x :: rest =>
      if N.eqb x c then [] :: split c rest
      else match split c rest with
           | seg :: segs => (x :: seg) :: segs
           | [] => [[x]]
           end
  end.

(** [a.pop()] as a value: the last element, [undefined] for an empty
    array. *)
Definition pop (a : list jsstring) : option jsstring := last a.

(** White space and line terminators, as [trim] understands them. *)
Definition is_whitespace (c : N) : bool :=
  existsb (N.eqb c)
    [0x09; 0x0A; 0x0B; 0x0C; 0x0D; 0x20; 0xA0; 0x1680; 0x2028; 0x2029;
     0x202F; 0x205F; 0x3000; 0xFEFF]%N
  || ((0x2000 <=? c) && (c <=? 0x200A))%N.

Fixpoint trimStart (s : jsstring) : jsstring :=
  match s with
  | c :: rest => if is_whitespace c then trimStart rest else s
  | [] => []
  end.

(** [s.trim()] *)
Definition trim (s : jsstring) : jsstring := rev (trimStart (rev (trimStart s))).

(** A settled promise, as [await] sees it: a value, or a thrown [Error]
    with its [message]. *)
Inductive Settled (A : Type) : Type :=
| Resolved (a : A)
| Rejected (message : jsstring).
Arguments Resolved {A} a.
Arguments Rejected {A} message.

(** The line terminator of a template literal. *)
Definition newline : jsstring := [0x0A%N].

(** [String(n)] for a non-negative integer: its decimal digits. *)
Definition number_to_string (n : N) : jsstring :=
  lit (NilZero.string_of_uint (N.to_uint n)).

End js.

Abbreviation jsstring := js.jsstring.

(* ===================================================================== *)
(** ** [frontend/src/services/sui.js]: class [SuiService] *)
(* ===================================================================== *)

Module SuiService.

(** A wallet extension, as far as [connect] uses it: what
    [wallet.connect()] settles to (the response, [null] or [undefined] as
    [None], and inside it [accounts], absent as [None]) and what
    [wallet.requestPermissions()] settles to. *)
Record Wallet : Type := mkWallet {
  wallet_connect : js.Settled (option (option (list jsstring)));
  wallet_requestPermissions : js.Settled (option (list jsstring))
}.

(** The global [window] with the two wallet properties. *)
Record Window : Type := mkWindow {
  suishi : option Wallet;
  suiWallet : option Wallet
}.

(** The fields of the class. *)
Record t : Type := mk {
  network : jsstring;
  packageId : option jsstring;
  connected : bool;
  address : option jsstring
}.

(** [const SUI_NETWORK = import.meta.env.VITE_SUI_NETWORK || 'testnet'] and
    [constructor()] *)
Definition constructor (VITE_SUI_NETWORK VITE_CONTRACT_PACKAGE_ID : option jsstring) : t :=
  {| network := js.or_else VITE_SUI_NETWORK (js.lit "testnet");
     packageId := VITE_CONTRACT_PACKAGE_ID;
     connected := false;
     address := None |}.

(** [getWallet()]; [window] is [None] when [typeof window === 'undefined']. *)
Definition getWallet (window : option Window) : option Wallet :=
  match window with
  | None => None
  | Some w =>
      match suishi w with
      | Some wallet => Some wallet
      | None =>
          match suiWallet w with
          | Some wallet => Some wallet
          | None => None
          end
      end
  end.

(** [isWalletInstalled()] *)
Definition isWalletInstalled (window : option Window) : bool :=
  match getWallet window with
  | Some _ => true
  | None => false
  end.

(** [getWalletName()] *)
Definition getWalletName (window : option Window) : jsstring :=
  match window with
  | None => js.lit "Unknown"
  | Some w =>
      match suishi w with
      | Some _ => js.lit "Suishi Wallet"
      | None =>
          match suiWallet w with
          | Some _ => js.lit "Sui Wallet"
          | None => js.lit "Unknown"
          end
      end
  end.

(** What [connect()] resolves to. *)
Inductive ConnectResult : Type :=
| ConnectSuccess (address wallet : jsstring)
| ConnectFailure (error : jsstring).

(** [async connect()]. The [try] block throws when no wallet is found,
    when the wallet call rejects, and when no account comes back; the
    [catch] turns the throw into a failure result and leaves the fields
    alone. *)
Definition connect (window : option Window) (self : t) : t * ConnectResult :=
  match getWallet window with
  | None =>
      (self,
       ConnectFailure
         (js.lit "No Sui wallet detected. Please install Suishi Wallet or Sui Wallet extension."))
  | Some wallet =>
      let accounts : js.Settled (option (list jsstring)) :=
        match window with
        | Some {| suishi := Some _ |} =>
            match wallet_connect wallet with
            | js.Resolved response =>
                match response with
                | Some (Some accounts) => js.Resolved (Some accounts)
                | _ => js.Resolved (Some [])
                end
            | js.Rejected _ => wallet_requestPermissions wallet
            end
        | _ => wallet_requestPermissions wallet
        end in
      match accounts with
      | js.Resolved (Some (first :: _)) =>
          ({| network := network self;
              packageId := packageId self;
              connected := true;
              address := Some first |},
           ConnectSuccess first (getWalletName window))
      | js.Resolved _ => (self, ConnectFailure (js.lit "No accounts found in wallet"))
      | js.Rejected message => (self, ConnectFailure message)
      end
  end.

(** [disconnect()] *)
Definition disconnect (self : t) : t :=
  {| network := network self;
     packageId := packageId self;
     connected := false;
     address := None |}.

(** [getAddress()] *)
Definition getAddress (self : t) : option jsstring := address self.

(** [isConnected()] *)
Definition isConnected (self : t) : bool := connected self.

(** [getExplorerUrl(digest)] *)
Definition getExplorerUrl (self : t) (digest : jsstring) : jsstring :=
  let baseUrl :=
    if decide (network self = js.lit "mainnet")
    then js.lit "https://suiexplorer.com"
    else js.lit "https://suiexplorer.com/?network=testnet" in
  baseUrl ++ js.lit "/txblock/" ++ digest.

(** [getObjectExplorerUrl(objectId)] *)
Definition getObjectExplorerUrl (self : t) (objectId : jsstring) : jsstring :=
  let baseUrl :=
    if decide (network self = js.lit "mainnet")
    then js.lit "https://suiexplorer.com"
    else js.lit "https://suiexplorer.com/?network=testnet" in
  baseUrl ++ js.lit "/object/" ++ objectId.

(** [formatAddress(address)] *)
Definition formatAddress (address : option jsstring) : jsstring :=
  match address with
  | Some (c :: r) =>
      let address := c :: r in
      js.slice address 0 (Some 6) ++ js.lit "..." ++ js.slice address (-4) None
  | _ => []
  end.

(** [getRpcUrl()] *)
Definition getRpcUrl (self : t) : jsstring :=
  if decide (network self = js.lit "mainnet") then js.lit "https://fullnode.mainnet.sui.io:443"
  else if decide (network self = js.lit "testnet") then js.lit "https://fullnode.testnet.sui.io:443"
  else if decide (network self = js.lit "devnet") then js.lit "https://fullnode.devnet.sui.io:443"
  else js.lit "https://fullnode.testnet.sui.io:443".

(** The object [getNetworkInfo()] returns. *)
Record NetworkInfo : Type := mkNetworkInfo {
  info_network : jsstring;
  info_rpcUrl : jsstring;
  info_explorerUrl : jsstring
}.

(** [getNetworkInfo()] *)
Definition getNetworkInfo (self : t) : NetworkInfo :=
  {| info_network := network self;
     info_rpcUrl := getRpcUrl self;
     info_explorerUrl :=
       if decide (network self = js.lit "mainnet")
       then js.lit "https://suiexplorer.com"
       else js.lit "https://suiexplorer.com/?network=testnet" |}.

(** What a user of the page does with the service. *)
Inductive Op : Type :=
| DoConnect (window : option Window)
| DoDisconnect.

Definition step (self : t) (op : Op) : t :=
  match op with
  | DoConnect window => fst (connect window self)
  | DoDisconnect => disconnect self
  end.

(** Connected exactly when an address is held. *)
Definition consistent (self : t) : Prop :=
  (connected self = true -> exists a, address self = Some a) /\
  (connected self = false -> address self = None).

End SuiService.

(* ===================================================================== *)
(** ** The components of the page *)
(* ===================================================================== *)

Module EventInput.

(** [handleSubmit]: [if (eventText.trim()) onSubmit(eventText, shipmentId || null)].
    The result is the call of [onSubmit] it makes, if any; its second
    argument is [None] for [null]. *)
Definition handleSubmit (eventText shipmentId : jsstring)
  : option (jsstring * option jsstring) :=
  match js.trim eventText with
  | _ :: _ =>
      Some (eventText,
            match shipmentId with
            | _ :: _ => Some shipmentId
            | [] => None
            end)
  | [] => None
  end.

(** [disabled={isLoading || !eventText.trim()}] of the submit button. *)
Definition submit_disabled (isLoading : bool) (eventText : jsstring) : bool :=
  isLoading || negb (js.truthy (Some (js.trim eventText))).

End EventInput.

Module ReportDisplay.

Inductive Badge : Type := low | medium | high.

(** [confidenceColor], for an integer score. *)
Definition confidenceColor (confidence_score : Z) : Badge :=
  if 80 <=? confidence_score then high
  else if 60 <=? confidence_score then medium
  else low.

(** The order of the badges. *)
Definition rank (b : Badge) : Z :=
  match b with low => 0 | medium => 1 | high => 2 end.

End ReportDisplay.

Module ChainStatus.

(** The text shown as "AI Model":
    [oracleStatus?.ai_model?.split('/').pop() || 'Qwen3']; the argument is
    [None] when [oracleStatus] or its [ai_model] is [null] or
    [undefined]. *)
Definition ai_model_shown (ai_model : option jsstring) : jsstring :=
  match ai_model with
  | None => js.lit "Qwen3"
  | Some m => js.or_else (js.pop (js.split 0x2F m)) (js.lit "Qwen3")
  end.

(** The text shown as "Contract":
    [oracleStatus?.contract_package ? `${...substring(0, 8)}...` : 'Not configured'] *)
Definition contract_shown (contract_package : option jsstring) : jsstring :=
  match contract_package with
  | Some (c :: r) => js.substring (c :: r) 0 8 ++ js.lit "..."
  | _ => js.lit "Not configured"
  end.

End ChainStatus.

Module ApiService.

(** The response of the back end, with the fields of [getMockResponse]:
    [ai_report] and [transaction] are flattened, and [processing_time], a
    fraction, is left out. *)
Record Response : Type := mkResponse {
  success : bool;
  shipment_id : jsstring;
  event_description : jsstring;
  ai_report_summary : jsstring;
  ai_report_confidence_score : Z;
  signature : jsstring;
  transaction_success : bool;
  transaction_digest : jsstring;
  transaction_timestamp : N;
  timestamp : jsstring
}.

(** The template literal [mockSummary]. *)
Definition mockSummary (eventDescription : jsstring) : jsstring :=
  js.lit "INCIDENT SUMMARY" ++ js.newline ++
  js.lit "Event: " ++ eventDescription ++ js.newline ++
  js.lit "Severity: Medium" ++ js.newline ++
  js.lit "Status: Active monitoring required" ++ js.newline ++
  [] ++ js.newline ++
  js.lit "IMPACT ANALYSIS" ++ js.newline ++
  js.lit "- Estimated delay: 2-4 hours" ++ js.newline ++
  js.lit "- Affected shipments: 1-3 units" ++ js.newline ++
  js.lit "- Financial impact: $2,000 - $5,000" ++ js.newline ++
  js.lit "- Customer notification: Required" ++ js.newline ++
  [] ++ js.newline ++
  js.lit "RECOMMENDED ACTIONS" ++ js.newline ++
  js.lit "1. Contact carrier for updated ETA" ++ js.newline ++
  js.lit "2. Notify affected customers within 1 hour" ++ js.newline ++
  js.lit "3. Assess alternative routing options" ++ js.newline ++
  js.lit "4. Document incident for insurance purposes" ++ js.newline ++
  js.lit "5. Update tracking systems" ++ js.newline ++
  [] ++ js.newline ++
  js.lit "CONFIDENCE SCORE" ++ js.newline ++
  js.lit "This analysis has a confidence score of 82 based on historical incident patterns.".

(** [getMockResponse(eventDescription, shipmentId)]. The three readings of
    the clock are arguments: [iso] is [new Date().toISOString()], [now_id]
    the [Date.now()] of the generated id and [now_tx] the [Date.now()] of
    the transaction. *)
Definition getMockResponse (eventDescription : jsstring) (shipmentId : option jsstring)
    (iso : jsstring) (now_id now_tx : N) : Response :=
  let timestamp := iso in
  let generatedShipmentId :=
    js.or_else shipmentId (js.lit "SHIP-" ++ js.number_to_string now_id) in
  {| success := true;
     shipment_id := generatedShipmentId;
     event_description := eventDescription;
     ai_report_summary := mockSummary eventDescription;
     ai_report_confidence_score := 82;
     signature := repeat 0x61%N 128;
     transaction_success := true;
     transaction_digest := js.lit "0x" ++ repeat 0x61%N 64;
     transaction_timestamp := now_tx;
     timestamp := timestamp |}.

(** What [fetch] resolves to, as far as [submitEvent] reads it:
    [response.ok], [response.status] and what [response.json()] settles
    to. *)
Record FetchResponse : Type := mkFetchResponse {
  ok : bool;
  status : Z;
  json : js.Settled Response
}.

(** [async submitEvent(eventDescription, shipmentId = null)]. The whole
    body is inside [try]; the [catch] returns the mock response, so the
    promise always resolves. *)
Definition submitEvent (fetched : js.Settled FetchResponse)
    (eventDescription : jsstring) (shipmentId : option jsstring)
    (iso : jsstring) (now_id now_tx : N) : Response :=
  match fetched with
  | js.Resolved response =>
      if ok response then
        match json response with
        | js.Resolved data => data
        | js.Rejected _ => getMockResponse eventDescription shipmentId iso now_id now_tx
        end
      else getMockResponse eventDescription shipmentId iso now_id now_tx
  | js.Rejected _ => getMockResponse eventDescription shipmentId iso now_id now_tx
  end.

End ApiService.

Module App.

(** The state of the [App] component that a submission touches; [R] is
    the type of the response of the back end. *)
Record State (R : Type) : Type := mkState {
  result : option R;
  isLoading : bool;
  error : option jsstring
}.
Arguments mkState {R} result isLoading error.
Arguments result {R} s.
Arguments isLoading {R} s.
Arguments error {R} s.

(** A value caught by [catch (err)]: one whose [message] can be read
    ([None] when it is [undefined]), or [null] / [undefined], on which
    reading [err.message] throws. *)
Inductive Thrown : Type :=
| WithMessage (message : option jsstring)
| Nullish.

(** What [await apiService.submitEvent(...)] does. *)
Inductive Awaited (R : Type) : Type :=
| Fulfilled (response : R)
| Threw (err : Thrown).
Arguments Fulfilled {R} response.
Arguments Threw {R} err.

(** [handleSubmitEvent], from the click to the end of its [finally]. *)
Definition handleSubmitEvent {R} (api : Awaited R) (st : State R) : State R :=
  let st := mkState (result st) true (error st) in
  let st := mkState (result st) (isLoading st) None in
  let st :=
    match api with
    | Fulfilled response => mkState (Some response) (isLoading st) (error st)
    | Threw (WithMessage message) =>
        mkState (result st) (isLoading st)
                (Some (js.or_else message (js.lit "Failed to process event")))
    | Threw Nullish => st
    end in
  mkState (result st) false (error st).

End App.

(** The answer of the wallet that decides [connect] starts with the
    account [a]: with Suishi installed, the accounts in the response of
    its [connect()], or of its [requestPermissions()] when [connect()]
    rejected; without Suishi, the accounts of [requestPermissions()]. *)
Definition first_account_granted (window : option SuiService.Window)
    (wallet : SuiService.Wallet) (a : jsstring) : Prop :=
  match window with
  | Some {| SuiService.suishi := Some _ |} =>
      (exists rest,
          SuiService.wallet_connect wallet = js.Resolved (Some (Some (a :: rest)))) \/
      (exists e rest,
          SuiService.wallet_connect wallet = js.Rejected e /\
          SuiService.wallet_requestPermissions wallet = js.Resolved (Some (a :: rest)))
  | _ =>
      exists rest,
        SuiService.wallet_requestPermissions wallet = js.Resolved (Some (a :: rest))
  end.

(** *** A page with two wallets, used to exercise the statements below *)
Module Demo.

(** A Suishi wallet whose [connect()] rejects and whose
    [requestPermissions()] grants two accounts. *)
Definition suishi_wallet : SuiService.Wallet :=
  SuiService.mkWallet (js.Rejected (js.lit "not supported"))
                      (js.Resolved (Some [js.lit "0xA11CE"; js.lit "0xB0B"])).

(** A standard wallet that refuses. *)
Definition standard_wallet : SuiService.Wallet :=
  SuiService.mkWallet (js.Rejected (js.lit "no connect"))
                      (js.Rejected (js.lit "User rejected the request")).

Definition both : option SuiService.Window :=
  Some (SuiService.mkWindow (Some suishi_wallet) (Some standard_wallet)).

Definition standard_only : option SuiService.Window :=
  Some (SuiService.mkWindow None (Some standard_wallet)).

Definition service : SuiService.t := SuiService.constructor None None.

Definition connected_service : SuiService.t := fst (SuiService.connect both service).

End Demo.

(* ===================================================================== *)
(** ** How the entry functions run *)
(* ===================================================================== *)

(** [string::utf8] on a few byte vectors: ASCII, two-, three- and four-byte
    sequences are accepted; a stray continuation byte, an overlong
    encoding, a surrogate, a code point above [U+10FFFF] and a truncated
    sequence are not. *)
Example utf8_accepts :
  forallb string.internal_check_utf8
    [ [];
      Scenario.text "SHIP-1";
      [Byte.xc3; Byte.xa9];
      [Byte.xe2; Byte.x82; Byte.xac];
      [Byte.xf0; Byte.x9f; Byte.x98; Byte.x80] ] = true.
Proof. reflexivity. Qed.

Example utf8_rejects :
  existsb string.internal_check_utf8
    [ [Byte.x80];
      [Byte.xc0; Byte.x80];
      [Byte.xed; Byte.xa0; Byte.x80];
      [Byte.xf4; Byte.x90; Byte.x80; Byte.x80];
      [Byte.xe2; Byte.x82];
      Scenario.bad_text ] = false.
Proof. reflexivity. Qed.

Lemma oracle_update_run sid summary score sig clk st :
  oracle_update sid summary score sig clk st =
  if score <=? 100 then
    if string.internal_check_utf8 sid && string.internal_check_utf8 summary then
      let ctx := tx_ctx st in
      let s := {| id := mkUID (ctx_tx_hash ctx, ctx_ids_created ctx);
                  shipment_id := string.mkString sid;
                  ai_summary := string.mkString summary;
                  confidence_score := score;
                  timestamp := clock_timestamp_ms clk;
                  oracle_signature := sig;
                  oracle_address := ctx_sender ctx |} in
      (Return tt,
       mkTxState
         (mkTxContext (ctx_sender ctx) (ctx_tx_hash ctx) (N.succ (ctx_ids_created ctx)))
         (tx_events st ++ [updated_event_of s])
         (<[(ctx_tx_hash ctx, ctx_ids_created ctx) := (AddressOwner (ctx_sender ctx), ObjShipment s)]>
            (tx_objects st)))
    else (Abort mod_std_string string.EINVALID_UTF8, st)
  else (Abort mod_supply_chain EInvalidConfidenceScore, st).
Proof.
  unfold oracle_update, bind, assert, string.utf8.
  destruct (score <=? 100); [|reflexivity].
  destruct (string.internal_check_utf8 sid); [|reflexivity].
  destruct (string.internal_check_utf8 summary); reflexivity.
Qed.

Lemma create_shipment_run sid summary score clk st :
  create_shipment sid summary score clk st =
  if score <=? 100 then
    if string.internal_check_utf8 sid && string.internal_check_utf8 summary then
      let ctx := tx_ctx st in
      let s := {| id := mkUID (ctx_tx_hash ctx, ctx_ids_created ctx);
                  shipment_id := string.mkString sid;
                  ai_summary := string.mkString summary;
                  confidence_score := score;
                  timestamp := clock_timestamp_ms clk;
                  oracle_signature := [];
                  oracle_address := ctx_sender ctx |} in
      (Return tt,
       mkTxState
         (mkTxContext (ctx_sender ctx) (ctx_tx_hash ctx) (N.succ (ctx_ids_created ctx)))
         (tx_events st ++ [created_event_of s])
         (<[(ctx_tx_hash ctx, ctx_ids_created ctx) := (AddressOwner (ctx_sender ctx), ObjShipment s)]>
            (tx_objects st)))
    else (Abort mod_std_string string.EINVALID_UTF8, st)
  else (Abort mod_supply_chain EInvalidConfidenceScore, st).
Proof.
  unfold create_shipment, bind, assert, string.utf8.
  destruct (score <=? 100); [|reflexivity].
  destruct (string.internal_check_utf8 sid); [|reflexivity].
  destruct (string.internal_check_utf8 summary); reflexivity.
Qed.

Lemma update_shipment_run s summary score sig clk st :
  update_shipment s summary score sig clk st =
  if score <=? 100 then
    if string.internal_check_utf8 summary then
      let s' := updated_record s (ctx_sender (tx_ctx st)) clk summary score sig in
      (Return s',
       mkTxState (tx_ctx st) (tx_events st ++ [updated_event_of s']) (tx_objects st))
    else (Abort mod_std_string string.EINVALID_UTF8, st)
  else (Abort mod_supply_chain EInvalidConfidenceScore, st).
Proof.
  unfold update_shipment, bind, assert, string.utf8.
  destruct (score <=? 100); [|reflexivity].
  destruct (string.internal_check_utf8 summary); reflexivity.
Qed.

(* ===================================================================== *)
(** ** How a transaction changes the ledger *)
(* ===================================================================== *)

Lemma execute_oracle_update L who sid summary score sig :
  execute L (mkTransaction who (CallOracleUpdate sid summary score sig)) =
  if score <=? 100 then
    if string.internal_check_utf8 sid && string.internal_check_utf8 summary then
      let s := oracle_record L who sid summary score sig in
      (commit L (<[first_id L := (AddressOwner who, ObjShipment s)]> (objects L))
              [updated_event_of s],
       Success)
    else (revert L, MoveAbort mod_std_string string.EINVALID_UTF8)
  else (revert L, MoveAbort mod_supply_chain EInvalidConfidenceScore).
Proof.
  unfold execute. cbn [tx_call tx_sender]. rewrite oracle_update_run.
  destruct (score <=? 100); [|reflexivity].
  destruct (_ && _); reflexivity.
Qed.

Lemma execute_create_shipment L who sid summary score :
  execute L (mkTransaction who (CallCreateShipment sid summary score)) =
  if score <=? 100 then
    if string.internal_check_utf8 sid && string.internal_check_utf8 summary then
      let s := oracle_record L who sid summary score vector.empty in
      (commit L (<[first_id L := (AddressOwner who, ObjShipment s)]> (objects L))
              [created_event_of s],
       Success)
    else (revert L, MoveAbort mod_std_string string.EINVALID_UTF8)
  else (revert L, MoveAbort mod_supply_chain EInvalidConfidenceScore).
Proof.
  unfold execute. cbn [tx_call tx_sender]. rewrite create_shipment_run.
  destruct (score <=? 100); [|reflexivity].
  destruct (_ && _); reflexivity.
Qed.

Lemma execute_update_shipment L who oid summary score sig :
  execute L (mkTransaction who (CallUpdateShipment oid summary score sig)) =
  match objects L !! oid with
  | Some (o, ObjShipment s) =>
      if may_use who o then
        if score <=? 100 then
          if string.internal_check_utf8 summary then
            let s' := updated_record s who (ledger_clock L) summary score sig in
            (commit L (<[oid := (o, ObjShipment s')]> (objects L)) [updated_event_of s'],
             Success)
          else (revert L, MoveAbort mod_std_string string.EINVALID_UTF8)
        else (revert L, MoveAbort mod_supply_chain EInvalidConfidenceScore)
      else (L, InvalidInput)
  | _ => (L, InvalidInput)
  end.
Proof.
  unfold execute. cbn [tx_call tx_sender].
  destruct (objects L !! oid) as [[o [s|r]]|]; try reflexivity.
  destruct (may_use who o); [|reflexivity].
  rewrite update_shipment_run.
  destruct (score <=? 100); [|reflexivity].
  destruct (string.internal_check_utf8 summary); reflexivity.
Qed.

(** Split a transaction into its three kinds and run it. *)
Ltac run_tx tx :=
  let who := fresh "who" in
  let sid := fresh "sid" in
  let summary := fresh "summary" in
  let score := fresh "score" in
  let sig := fresh "sig" in
  let oid := fresh "oid" in
  destruct tx as [who [sid summary score sig | sid summary score | oid summary score sig]];
  [ rewrite execute_oracle_update
  | rewrite execute_create_shipment
  | rewrite execute_update_shipment ].

Lemma publish_objects publisher now :
  objects (publish publisher now) = {[ (0%N, 0%N) := the_registry publisher ]}.
Proof. reflexivity. Qed.

Lemma publish_next publisher now : next_tx_hash (publish publisher now) = 1%N.
Proof. reflexivity. Qed.

(** Ids in the store come from transactions that have run, so the id the
    next transaction derives is not in the store. *)
Lemma execute_ids_are_past L tx :
  ids_are_past L -> ids_are_past (fst (execute L tx)).
Proof.
  intros HL. run_tx tx.
  - destruct (_ <=? _); [destruct (_ && _)|]; cbn.
    + intros k x. cbn. destruct (decide (first_id L = k)) as [<-|Hne].
      * intros _. cbn. lia.
      * rewrite lookup_insert_ne by exact Hne. intros Hk. apply HL in Hk. lia.
    + intros k x Hk. cbn in *. apply HL in Hk. lia.
    + intros k x Hk. cbn in *. apply HL in Hk. lia.
  - destruct (_ <=? _); [destruct (_ && _)|]; cbn.
    + intros k x. cbn. destruct (decide (first_id L = k)) as [<-|Hne].
      * intros _. cbn. lia.
      * rewrite lookup_insert_ne by exact Hne. intros Hk. apply HL in Hk. lia.
    + intros k x Hk. cbn in *. apply HL in Hk. lia.
    + intros k x Hk. cbn in *. apply HL in Hk. lia.
  - destruct (objects L !! oid) as [[o [s|r]]|] eqn:Hoid; cbn; try exact HL.
    destruct (may_use who o); cbn; try exact HL.
    destruct (_ <=? _); [destruct (string.internal_check_utf8 _)|]; cbn.
    + intros k x. cbn. destruct (decide (oid = k)) as [<-|Hne].
      * intros _. apply HL in Hoid. lia.
      * rewrite lookup_insert_ne by exact Hne. intros Hk. apply HL in Hk. lia.
    + intros k x Hk. cbn in *. apply HL in Hk. lia.
    + intros k x Hk. cbn in *. apply HL in Hk. lia.
Qed.

Lemma reachable_ids_are_past publisher L : reachable publisher L -> ids_are_past L.
Proof.
  induction 1 as [now Hnow | L tx HL IH Hwf | L now HL IH Hle Hnow].
  - intros k x. rewrite publish_objects, publish_next.
    intros Hk. apply lookup_singleton_Some in Hk as [<- _]. cbn. lia.
  - apply execute_ids_are_past, IH.
  - exact IH.
Qed.

Lemma reachable_first_id_fresh publisher L :
  reachable publisher L -> objects L !! first_id L = None.
Proof.
  intros HL. apply reachable_ids_are_past in HL.
  destruct (objects L !! first_id L) as [x|] eqn:Hx; [|reflexivity].
  apply HL in Hx. cbn in Hx. lia.
Qed.

(* ===================================================================== *)
(** ** Rejection of an out-of-range confidence score *)
(* ===================================================================== *)

(** C1. A call of [oracle_update], [create_shipment] or [update_shipment]
    whose [confidence_score] is a [u64] outside [[0,100]] aborts with
    [EInvalidConfidenceScore] of this module, and it does so before any
    effect: the state at the abort is the state at entry (no transfer, no
    event, no id consumed). As a transaction it does not succeed, and the
    object store and the event log of the ledger are what they were. An
    [update_shipment] naming an object the sender cannot pass is refused
    before it runs ([InvalidInput]), equally without change. *)
Theorem out_of_range_score_is_rejected (c : Z) :
  is_u64 c ->
  ~ (0 <= c <= 100) ->
  (forall sid summary sig clk st,
      oracle_update sid summary c sig clk st
      = (Abort mod_supply_chain EInvalidConfidenceScore, st)) /\
  (forall sid summary clk st,
      create_shipment sid summary c clk st
      = (Abort mod_supply_chain EInvalidConfidenceScore, st)) /\
  (forall s summary sig clk st,
      update_shipment s summary c sig clk st
      = (Abort mod_supply_chain EInvalidConfidenceScore, st)) /\
  (forall L tx,
      call_confidence (tx_call tx) = c ->
      snd (execute L tx) <> Success /\
      (snd (execute L tx) = MoveAbort mod_supply_chain EInvalidConfidenceScore \/
       snd (execute L tx) = InvalidInput) /\
      objects (fst (execute L tx)) = objects L /\
      event_log (fst (execute L tx)) = event_log L /\
      ledger_clock (fst (execute L tx)) = ledger_clock L).
Proof.
  intros [Hlo Hhi] Hout.
  assert (Hc : (c <=? 100) = false) by (apply Z.leb_gt; lia).
  split; [|split; [|split]].
  - intros. rewrite oracle_update_run, Hc. reflexivity.
  - intros. rewrite create_shipment_run, Hc. reflexivity.
  - intros. rewrite update_shipment_run, Hc. reflexivity.
  - intros L tx Htx. run_tx tx; cbn in Htx; subst score.
    + rewrite Hc. cbn. repeat split; auto; discriminate.
    + rewrite Hc. cbn. repeat split; auto; discriminate.
    + destruct (objects L !! oid) as [[o [s|r]]|]; cbn;
        try (repeat split; auto; discriminate).
      destruct (may_use who o); cbn; try (repeat split; auto; discriminate).
      rewrite Hc. cbn. repeat split; auto; discriminate.
Qed.

Lemma out_of_range_score_is_rejected_witness :
  is_u64 150 /\ ~ (0 <= 150 <= 100) /\
  oracle_update (Scenario.text "SHIP-9") (Scenario.text "late") 150 [] (mkClock 1000)
                Scenario.st0
  = (Abort mod_supply_chain EInvalidConfidenceScore, Scenario.st0).
Proof.
  assert (H1 : is_u64 150) by (unfold is_u64; lia).
  assert (H2 : ~ (0 <= 150 <= 100)) by lia.
  split; [exact H1 | split; [exact H2 |]].
  apply (proj1 (out_of_range_score_is_rejected 150 H1 H2)).
Defined.


(* ===================================================================== *)
(** ** [oracle_update] always creates *)
(* ===================================================================== *)

Lemma scenario_once_reachable : reachable Scenario.oracle Scenario.once.
Proof.
  apply (reach_execute _ Scenario.genesis Scenario.submit).
  - apply reach_publish. unfold is_u64. cbn. lia.
  - unfold wf_call, is_u64. cbn. lia.
Qed.

(** C2, as stated, fails. After one accepted [oracle_update] for
    ["SHIP-1"], the identical submission is accepted again and stored as a
    second object under a new id, next to the first: the ledger then holds
    two records with the same [shipment_id]. *)
Lemma second_oracle_update_counterexample :
  reachable Scenario.oracle Scenario.once /\
  objects Scenario.once !! (1%N, 0%N)
  = Some (AddressOwner Scenario.oracle, ObjShipment Scenario.the_record) /\
  snd (execute Scenario.once Scenario.submit) = Success /\
  objects Scenario.twice !! (1%N, 0%N)
  = Some (AddressOwner Scenario.oracle, ObjShipment Scenario.the_record) /\
  (exists s2,
      objects Scenario.twice !! (2%N, 0%N)
      = Some (AddressOwner Scenario.oracle, ObjShipment s2) /\
      shipment_id s2 = shipment_id Scenario.the_record /\
      id s2 <> id Scenario.the_record) /\
  ~ unique_shipment_ids Scenario.twice.
Proof.
  split; [exact scenario_once_reachable|].
  split; [vm_compute; reflexivity|].
  split; [vm_compute; reflexivity|].
  split; [vm_compute; reflexivity|].
  split.
  - eexists. split; [vm_compute; reflexivity|]. split; [reflexivity|].
    cbn. intros H. discriminate H.
  - intros Huniq.
    assert (H : (1%N, 0%N) = (2%N, 0%N) :> ID); [|discriminate H].
    eapply Huniq.
    + vm_compute. reflexivity.
    + vm_compute. reflexivity.
    + reflexivity.
Qed.

(** C2, amended. On a reachable ledger every [oracle_update] with a score
    of at most 100 and UTF-8 texts is accepted, whatever records exist
    already, and creates one more record: it is stored under the id the
    transaction derives, which no object had before, every object already
    in the store is left exactly as it was, and the store grows by one; a
    repeated submission is neither rejected nor deduplicated. An existing
    record changes only through an accepted [update_shipment] on that
    object: after any other transaction it is found under its id exactly
    as it was. *)
Theorem oracle_update_creates_a_new_record publisher L :
  reachable publisher L ->
  (forall who sid summary score sig,
      score <= 100 ->
      string.internal_check_utf8 sid = true ->
      string.internal_check_utf8 summary = true ->
      let tx := mkTransaction who (CallOracleUpdate sid summary score sig) in
      let s := oracle_record L who sid summary score sig in
      snd (execute L tx) = Success /\
      objects L !! first_id L = None /\
      objects (fst (execute L tx))
      = <[first_id L := (AddressOwner who, ObjShipment s)]> (objects L) /\
      (forall oid, oid <> first_id L ->
                   objects (fst (execute L tx)) !! oid = objects L !! oid) /\
      size (objects (fst (execute L tx))) = S (size (objects L))) /\
  (forall tx k o r,
      objects L !! k = Some (o, ObjShipment r) ->
      objects (fst (execute L tx)) !! k <> Some (o, ObjShipment r) ->
      exists summary' score' sig',
        tx_call tx = CallUpdateShipment k summary' score' sig' /\
        snd (execute L tx) = Success).
Proof.
  intros HL.
  pose proof (reachable_first_id_fresh _ _ HL) as Hfresh.
  split.
  - intros who sid summary score sig Hscore Hsid Hsum tx s. subst tx.
    rewrite execute_oracle_update.
    apply Z.leb_le in Hscore. rewrite Hscore, Hsid, Hsum. cbn -[first_id].
    split; [reflexivity|]. split; [exact Hfresh|]. split; [reflexivity|]. split.
    + intros oid Hne. apply lookup_insert_ne. congruence.
    + apply map_size_insert_None. exact Hfresh.
  - intros tx k o r Hk.
    assert (Hne : first_id L <> k).
    { intros Heq. rewrite Heq in Hfresh.
      pose proof (eq_trans (eq_sym Hk) Hfresh) as Hbad. discriminate Hbad. }
    run_tx tx; cbn [tx_call].
    + destruct (_ <=? _); [destruct (_ && _)|]; cbn -[first_id]; intros Hchanged;
        exfalso; apply Hchanged;
        [rewrite lookup_insert_ne by exact Hne | |]; exact Hk.
    + destruct (_ <=? _); [destruct (_ && _)|]; cbn -[first_id]; intros Hchanged;
        exfalso; apply Hchanged;
        [rewrite lookup_insert_ne by exact Hne | |]; exact Hk.
    + destruct (objects L !! oid) as [[o0 [s0|r0]]|] eqn:Hoid; cbn;
        try (intros Hchanged; exfalso; exact (Hchanged Hk)).
      destruct (may_use who o0); cbn;
        try (intros Hchanged; exfalso; exact (Hchanged Hk)).
      destruct (_ <=? _); [destruct (string.internal_check_utf8 _)|]; cbn;
        try (intros Hchanged; exfalso; exact (Hchanged Hk)).
      intros Hchanged. destruct (decide (oid = k)) as [->|Hoidk].
      * exists summary, score, sig. split; reflexivity.
      * exfalso. apply Hchanged. rewrite lookup_insert_ne by exact Hoidk. exact Hk.
Qed.

Lemma oracle_update_creates_a_new_record_witness :
  size (objects Scenario.twice) = S (size (objects Scenario.once)).
Proof.
  apply (proj1 (oracle_update_creates_a_new_record Scenario.oracle Scenario.once
                  scenario_once_reachable)
           Scenario.oracle
           (Scenario.text "SHIP-1") (Scenario.text "delay 2h") 82
           (Scenario.text "not a signature")).
  - lia.
  - vm_compute. reflexivity.
  - vm_compute. reflexivity.
Defined.

(* ===================================================================== *)
(** ** Which notification a call emits *)
(* ===================================================================== *)

(** C3, as stated, fails. On the freshly published ledger, which holds no
    record at all, the accepted [oracle_update] for ["SHIP-1"] emits one
    event, it is a [ShipmentUpdated], and no [ShipmentCreated] is in the
    log. *)
Lemma first_oracle_update_counterexample :
  (forall oid o s, objects Scenario.genesis !! oid <> Some (o, ObjShipment s)) /\
  snd (execute Scenario.genesis Scenario.submit) = Success /\
  event_log Scenario.once = [updated_event_of Scenario.the_record] /\
  ~ (exists e, In (EvShipmentCreated e) (event_log Scenario.once)).
Proof.
  split; [|split; [|split]].
  - intros oid o s H. unfold Scenario.genesis in H. rewrite publish_objects in H.
    apply lookup_singleton_Some in H as [_ H]. discriminate H.
  - vm_compute. reflexivity.
  - vm_compute. reflexivity.
  - intros [e He].
    assert (Hlog : event_log Scenario.once = [updated_event_of Scenario.the_record])
      by (vm_compute; reflexivity).
    rewrite Hlog in He. destruct He as [He|[]]. discriminate He.
Qed.

(** C3, amended. An accepted [oracle_update] appends exactly one
    [ShipmentUpdated] carrying the submitted [shipment_id] and score, the
    ledger's time and the sender, also when no record with that
    [shipment_id] exists. An accepted [create_shipment] appends exactly one
    [ShipmentCreated] carrying the [shipment_id] and the ledger's time, and
    it is the only call that emits one. An accepted [update_shipment]
    appends exactly one [ShipmentUpdated] for the record it changes. A call
    that is not accepted appends nothing. *)
Theorem events_of_a_call L tx :
  (snd (execute L tx) = Success ->
   match tx_call tx with
   | CallOracleUpdate sid summary score sig =>
       event_log (fst (execute L tx))
       = event_log L ++
         [EvShipmentUpdated
            {| updated_shipment_id := string.mkString sid;
               updated_confidence_score := score;
               updated_timestamp := clock_timestamp_ms (ledger_clock L);
               updated_oracle_address := tx_sender tx |}]
   | CallCreateShipment sid summary score =>
       event_log (fst (execute L tx))
       = event_log L ++
         [EvShipmentCreated
            {| created_shipment_id := string.mkString sid;
               created_timestamp := clock_timestamp_ms (ledger_clock L) |}]
   | CallUpdateShipment oid summary score sig =>
       exists o s,
         objects L !! oid = Some (o, ObjShipment s) /\
         event_log (fst (execute L tx))
         = event_log L ++
           [EvShipmentUpdated
              {| updated_shipment_id := shipment_id s;
                 updated_confidence_score := score;
                 updated_timestamp := clock_timestamp_ms (ledger_clock L);
                 updated_oracle_address := tx_sender tx |}]
   end) /\
  (snd (execute L tx) <> Success ->
   event_log (fst (execute L tx)) = event_log L).
Proof.
  run_tx tx; cbn [tx_call tx_sender].
  - destruct (_ <=? _); [destruct (_ && _)|]; cbn; split; intros H;
      try reflexivity; try discriminate H; try (exfalso; apply H; reflexivity).
  - destruct (_ <=? _); [destruct (_ && _)|]; cbn; split; intros H;
      try reflexivity; try discriminate H; try (exfalso; apply H; reflexivity).
  - destruct (objects L !! oid) as [[o [s|r]]|]; cbn;
      try (split; intros H; [discriminate H | reflexivity]).
    destruct (may_use who o); cbn;
      try (split; intros H; [discriminate H | reflexivity]).
    destruct (_ <=? _); [destruct (string.internal_check_utf8 _)|]; cbn;
      split; intros H; try reflexivity; try discriminate H;
      try (exfalso; apply H; reflexivity).
    exists o, s. split; reflexivity.
Qed.

Lemma events_of_a_call_witness :
  event_log Scenario.once
  = event_log Scenario.genesis ++
    [EvShipmentUpdated
       {| updated_shipment_id := string.mkString (Scenario.text "SHIP-1");
          updated_confidence_score := 82;
          updated_timestamp := 1000;
          updated_oracle_address := Scenario.oracle |}].
Proof.
  apply (proj1 (events_of_a_call Scenario.genesis Scenario.submit)).
  vm_compute. reflexivity.
Defined.


(* ===================================================================== *)
(** ** The score of a stored record *)
(* ===================================================================== *)

Lemma scenario_once_record :
  objects Scenario.once !! (1%N, 0%N)
  = Some (AddressOwner Scenario.oracle, ObjShipment Scenario.the_record).
Proof. vm_compute. reflexivity. Qed.

(** C4. Every [Shipment] on a reachable ledger has a [confidence_score] in
    [[0,100]]: the published ledger holds no record, and every well-typed
    call of [oracle_update], [create_shipment] or [update_shipment], like
    every tick of the clock, keeps the property. *)
Theorem confidence_score_invariant :
  (forall L tx,
      wf_call (tx_call tx) -> scores_in_range L ->
      scores_in_range (fst (execute L tx))) /\
  (forall now L, scores_in_range L -> scores_in_range (tick now L)) /\
  (forall publisher L, reachable publisher L -> scores_in_range L).
Proof.
  assert (Hstep : forall L tx,
             wf_call (tx_call tx) -> scores_in_range L ->
             scores_in_range (fst (execute L tx))).
  { intros L tx Hwf HL. unfold wf_call, is_u64 in Hwf. run_tx tx; cbn in Hwf.
    - destruct (score <=? 100) eqn:Hle; [destruct (_ && _)|]; cbn; try exact HL.
      apply Z.leb_le in Hle. intros k o s Hk. cbn in Hk.
      apply lookup_insert_Some in Hk as [[_ Hk]|[_ Hk]]; [|exact (HL _ _ _ Hk)].
      injection Hk as _ <-. cbn. lia.
    - destruct (score <=? 100) eqn:Hle; [destruct (_ && _)|]; cbn; try exact HL.
      apply Z.leb_le in Hle. intros k o s Hk. cbn in Hk.
      apply lookup_insert_Some in Hk as [[_ Hk]|[_ Hk]]; [|exact (HL _ _ _ Hk)].
      injection Hk as _ <-. cbn. lia.
    - destruct (objects L !! oid) as [[o0 [s0|r0]]|]; cbn; try exact HL.
      destruct (may_use who o0); cbn; try exact HL.
      destruct (score <=? 100) eqn:Hle;
        [destruct (string.internal_check_utf8 _)|]; cbn; try exact HL.
      apply Z.leb_le in Hle. intros k o s Hk. cbn in Hk.
      apply lookup_insert_Some in Hk as [[_ Hk]|[_ Hk]]; [|exact (HL _ _ _ Hk)].
      injection Hk as _ <-. cbn. lia. }
  split; [exact Hstep|]. split.
  - intros now L HL. exact HL.
  - intros publisher L HL.
    induction HL as [now Hnow | L tx HL IH Hwf | L now HL IH Hle Hnow].
    + intros k o s Hk. rewrite publish_objects in Hk.
      apply lookup_singleton_Some in Hk as [_ Hk]. discriminate Hk.
    + apply Hstep; assumption.
    + exact IH.
Qed.

Lemma confidence_score_invariant_witness :
  0 <= confidence_score Scenario.the_record <= 100.
Proof.
  apply (proj2 (proj2 confidence_score_invariant) Scenario.oracle Scenario.once
           scenario_once_reachable (1%N, 0%N) (AddressOwner Scenario.oracle)).
  exact scenario_once_record.
Defined.

(* ===================================================================== *)
(** ** Ledger-assigned fields *)
(* ===================================================================== *)

(** C5. In every accepted call the record that is written carries the
    time of the [Clock] passed by the ledger as [timestamp] and the sender
    of the transaction as [oracle_address]. The caller's arguments hold
    neither a time nor an address, and the two fields are the same
    whatever those arguments are. This holds for the functions themselves
    (first three parts) and for the transactions that run them (last
    part). *)
Theorem timestamp_and_signer_are_assigned :
  (forall sid summary score sig clk st st',
      oracle_update sid summary score sig clk st = (Return tt, st') ->
      exists s,
        tx_objects st' !! (ctx_tx_hash (tx_ctx st), ctx_ids_created (tx_ctx st))
        = Some (AddressOwner (ctx_sender (tx_ctx st)), ObjShipment s) /\
        timestamp s = clock.timestamp_ms clk /\
        oracle_address s = ctx_sender (tx_ctx st)) /\
  (forall sid summary score clk st st',
      create_shipment sid summary score clk st = (Return tt, st') ->
      exists s,
        tx_objects st' !! (ctx_tx_hash (tx_ctx st), ctx_ids_created (tx_ctx st))
        = Some (AddressOwner (ctx_sender (tx_ctx st)), ObjShipment s) /\
        timestamp s = clock.timestamp_ms clk /\
        oracle_address s = ctx_sender (tx_ctx st)) /\
  (forall s summary score sig clk st s' st',
      update_shipment s summary score sig clk st = (Return s', st') ->
      timestamp s' = clock.timestamp_ms clk /\
      oracle_address s' = ctx_sender (tx_ctx st)) /\
  (forall L tx,
      snd (execute L tx) = Success ->
      exists o s,
        objects (fst (execute L tx))
        !! match tx_call tx with
           | CallUpdateShipment oid _ _ _ => oid
           | _ => first_id L
           end
        = Some (o, ObjShipment s) /\
        timestamp s = clock_timestamp_ms (ledger_clock L) /\
        oracle_address s = tx_sender tx).
Proof.
  split; [|split; [|split]].
  - intros sid summary score sig clk st st'. rewrite oracle_update_run.
    destruct (_ <=? _); [destruct (_ && _)|]; intros H; try discriminate H.
    injection H as <-. cbn. eexists. rewrite lookup_insert_eq.
    split; [reflexivity|]. split; reflexivity.
  - intros sid summary score clk st st'. rewrite create_shipment_run.
    destruct (_ <=? _); [destruct (_ && _)|]; intros H; try discriminate H.
    injection H as <-. cbn. eexists. rewrite lookup_insert_eq.
    split; [reflexivity|]. split; reflexivity.
  - intros s summary score sig clk st s' st'. rewrite update_shipment_run.
    destruct (_ <=? _); [destruct (string.internal_check_utf8 _)|];
      intros H; try discriminate H.
    injection H as <- _. split; reflexivity.
  - intros L tx. run_tx tx; cbn [tx_call tx_sender].
    + destruct (_ <=? _); [destruct (_ && _)|]; cbn -[first_id];
        intros H; try discriminate H.
      eexists _, _. rewrite lookup_insert_eq. split; [reflexivity|].
      split; reflexivity.
    + destruct (_ <=? _); [destruct (_ && _)|]; cbn -[first_id];
        intros H; try discriminate H.
      eexists _, _. rewrite lookup_insert_eq. split; [reflexivity|].
      split; reflexivity.
    + destruct (objects L !! oid) as [[o0 [s0|r0]]|]; cbn;
        try (intros H; discriminate H).
      destruct (may_use who o0); cbn; try (intros H; discriminate H).
      destruct (_ <=? _); [destruct (string.internal_check_utf8 _)|]; cbn;
        intros H; try discriminate H.
      eexists _, _. rewrite lookup_insert_eq. split; [reflexivity|].
      split; reflexivity.
Qed.

Lemma timestamp_and_signer_are_assigned_witness :
  exists o s,
    objects Scenario.once !! (1%N, 0%N) = Some (o, ObjShipment s) /\
    timestamp s = 1000 /\
    oracle_address s = Scenario.oracle.
Proof.
  apply (proj2 (proj2 (proj2 timestamp_and_signer_are_assigned))
           Scenario.genesis Scenario.submit).
  vm_compute. reflexivity.
Defined.

(* ===================================================================== *)
(** ** Reading a record back *)
(* ===================================================================== *)

(** C6. After an accepted [oracle_update] the record stored under the new
    id, owned by the sender, reads back through the accessors as
    submitted: [get_shipment_id] and [get_ai_summary] wrap exactly the
    submitted bytes, [get_confidence_score] is the submitted score, the
    stored [oracle_signature] is the submitted byte vector (and
    [get_signature_length] its length). The two remaining fields are the
    ledger's: [get_timestamp] is the clock's time and [get_oracle_address]
    the sender. *)
Theorem oracle_update_round_trip L who sid summary score sig :
  snd (execute L (mkTransaction who (CallOracleUpdate sid summary score sig))) = Success ->
  exists s,
    objects (fst (execute L (mkTransaction who (CallOracleUpdate sid summary score sig))))
    !! first_id L
    = Some (AddressOwner who, ObjShipment s) /\
    string.bytes (get_shipment_id s) = sid /\
    string.bytes (get_ai_summary s) = summary /\
    get_confidence_score s = score /\
    oracle_signature s = sig /\
    get_signature_length s = Z.of_nat (List.length sig) /\
    get_timestamp s = clock_timestamp_ms (ledger_clock L) /\
    get_oracle_address s = who.
Proof.
  rewrite execute_oracle_update.
  destruct (_ <=? _); [destruct (_ && _)|]; cbn -[first_id];
    intros H; try discriminate H.
  eexists. rewrite lookup_insert_eq. split; [reflexivity|].
  repeat split; reflexivity.
Qed.

Lemma oracle_update_round_trip_witness :
  exists s,
    objects Scenario.once !! (1%N, 0%N)
    = Some (AddressOwner Scenario.oracle, ObjShipment s) /\
    string.bytes (get_shipment_id s) = Scenario.text "SHIP-1" /\
    string.bytes (get_ai_summary s) = Scenario.text "delay 2h" /\
    get_confidence_score s = 82 /\
    oracle_signature s = Scenario.text "not a signature" /\
    get_signature_length s = 15 /\
    get_timestamp s = 1000 /\
    get_oracle_address s = Scenario.oracle.
Proof.
  apply (oracle_update_round_trip Scenario.genesis Scenario.oracle
           (Scenario.text "SHIP-1") (Scenario.text "delay 2h") 82
           (Scenario.text "not a signature")).
  vm_compute. reflexivity.
Defined.



(* ===================================================================== *)
(** ** What [update_shipment] changes *)
(* ===================================================================== *)

(** C7. An accepted [update_shipment] overwrites [ai_summary],
    [confidence_score], [oracle_signature], [timestamp] and
    [oracle_address] with the new summary, score and signature, the
    clock's time and the sender, and keeps [id] and [shipment_id]; it
    emits one [ShipmentUpdated] with the record's [shipment_id] and the
    new score, time and address, and transfers nothing. On the ledger the
    record stays under the same object id with the same owner, every other
    object is untouched, and no object appears or disappears. *)
Theorem update_shipment_frame :
  (forall s summary score sig clk st s' st',
      update_shipment s summary score sig clk st = (Return s', st') ->
      (ai_summary s' = string.mkString summary /\
       confidence_score s' = score /\
       oracle_signature s' = sig /\
       timestamp s' = clock.timestamp_ms clk /\
       oracle_address s' = ctx_sender (tx_ctx st)) /\
      (id s' = id s /\ shipment_id s' = shipment_id s) /\
      tx_events st'
      = tx_events st ++
        [EvShipmentUpdated
           {| updated_shipment_id := shipment_id s;
              updated_confidence_score := score;
              updated_timestamp := clock.timestamp_ms clk;
              updated_oracle_address := ctx_sender (tx_ctx st) |}] /\
      tx_objects st' = tx_objects st /\
      tx_ctx st' = tx_ctx st) /\
  (forall L who oid summary score sig,
      let tx := mkTransaction who (CallUpdateShipment oid summary score sig) in
      snd (execute L tx) = Success ->
      exists o s,
        let s' := updated_record s who (ledger_clock L) summary score sig in
        objects L !! oid = Some (o, ObjShipment s) /\
        objects (fst (execute L tx)) = <[oid := (o, ObjShipment s')]> (objects L) /\
        (forall k, k <> oid -> objects (fst (execute L tx)) !! k = objects L !! k) /\
        dom (objects (fst (execute L tx))) = dom (objects L) /\
        event_log (fst (execute L tx)) = event_log L ++ [updated_event_of s']).
Proof.
  split.
  - intros s summary score sig clk st s' st'. rewrite update_shipment_run.
    destruct (_ <=? _); [destruct (string.internal_check_utf8 _)|];
      intros H; try discriminate H.
    injection H as <- <-. cbn. repeat split; reflexivity.
  - intros L who oid summary score sig tx. subst tx.
    rewrite execute_update_shipment.
    destruct (objects L !! oid) as [[o [s|r]]|] eqn:Hoid; cbn;
      try (intros H; discriminate H).
    destruct (may_use who o); cbn; try (intros H; discriminate H).
    destruct (_ <=? _); [destruct (string.internal_check_utf8 _)|]; cbn;
      intros H; try discriminate H.
    exists o, s. cbn. split; [reflexivity|]. split; [reflexivity|]. split; [|split].
    + intros k Hk. apply lookup_insert_ne. congruence.
    + apply dom_insert_lookup_L. rewrite Hoid. eauto.
    + reflexivity.
Qed.

Lemma update_shipment_frame_witness :
  exists o s,
    let s' := updated_record s Scenario.oracle (mkClock 1000)
                (Scenario.text "delay 5h") 90 (Scenario.text "still not one") in
    objects Scenario.once !! (1%N, 0%N) = Some (o, ObjShipment s) /\
    objects Scenario.revised = <[(1%N, 0%N) := (o, ObjShipment s')]> (objects Scenario.once) /\
    (forall k, k <> (1%N, 0%N) -> objects Scenario.revised !! k = objects Scenario.once !! k) /\
    dom (objects Scenario.revised) = dom (objects Scenario.once) /\
    event_log Scenario.revised = event_log Scenario.once ++ [updated_event_of s'].
Proof.
  apply (proj2 update_shipment_frame Scenario.once Scenario.oracle (1%N, 0%N)
           (Scenario.text "delay 5h") 90 (Scenario.text "still not one")).
  vm_compute. reflexivity.
Defined.


(* ===================================================================== *)
(** ** The signature is stored, not checked *)
(* ===================================================================== *)

(** Records are created by [transfer::transfer] to an address and stay with
    their owner. *)
Lemma reachable_shipments_are_owned publisher L :
  reachable publisher L -> shipments_are_owned L.
Proof.
  induction 1 as [now Hnow | L tx HL IH Hwf | L now HL IH Hle Hnow].
  - intros k o s Hk. rewrite publish_objects in Hk.
    apply lookup_singleton_Some in Hk as [_ Hk]. discriminate Hk.
  - run_tx tx.
    + destruct (_ <=? _); [destruct (_ && _)|]; cbn; try exact IH.
      intros k o s Hk. cbn in Hk.
      apply lookup_insert_Some in Hk as [[_ Hk]|[_ Hk]]; [|exact (IH _ _ _ Hk)].
      injection Hk as <- _. eauto.
    + destruct (_ <=? _); [destruct (_ && _)|]; cbn; try exact IH.
      intros k o s Hk. cbn in Hk.
      apply lookup_insert_Some in Hk as [[_ Hk]|[_ Hk]]; [|exact (IH _ _ _ Hk)].
      injection Hk as <- _. eauto.
    + destruct (objects L !! oid) as [[o0 [s0|r0]]|] eqn:Hoid; cbn; try exact IH.
      destruct (may_use who o0); cbn; try exact IH.
      destruct (_ <=? _); [destruct (string.internal_check_utf8 _)|]; cbn;
        try exact IH.
      intros k o s Hk. cbn in Hk.
      apply lookup_insert_Some in Hk as [[_ Hk]|[_ Hk]]; [|exact (IH _ _ _ Hk)].
      injection Hk as <- _. exact (IH _ _ _ Hoid).
  - exact IH.
Qed.

(** C8. No operation looks at the signature. Whether [oracle_update] or
    [update_shipment] is accepted, and how it aborts otherwise, is the same
    for any two signature vectors; when the call is accepted the vector is
    stored as given. The only abort this module raises is
    [EInvalidConfidenceScore]: [EInvalidSignature] and [EUnauthorized] are
    never raised. On a reachable ledger an [update_shipment] is accepted
    exactly when the named object is a [Shipment] owned by the sender, the
    score is at most 100 and the summary is UTF-8. *)
Theorem signature_is_not_verified :
  (forall L who sid summary score sig sig',
      snd (execute L (mkTransaction who (CallOracleUpdate sid summary score sig)))
      = snd (execute L (mkTransaction who (CallOracleUpdate sid summary score sig')))) /\
  (forall L who oid summary score sig sig',
      snd (execute L (mkTransaction who (CallUpdateShipment oid summary score sig)))
      = snd (execute L (mkTransaction who (CallUpdateShipment oid summary score sig')))) /\
  (forall sid summary score sig clk st st',
      oracle_update sid summary score sig clk st = (Return tt, st') ->
      exists s,
        tx_objects st' !! (ctx_tx_hash (tx_ctx st), ctx_ids_created (tx_ctx st))
        = Some (AddressOwner (ctx_sender (tx_ctx st)), ObjShipment s) /\
        oracle_signature s = sig) /\
  (forall s summary score sig clk st s' st',
      update_shipment s summary score sig clk st = (Return s', st') ->
      oracle_signature s' = sig) /\
  (forall L tx code,
      snd (execute L tx) = MoveAbort mod_supply_chain code ->
      code = EInvalidConfidenceScore) /\
  (forall publisher L who oid summary score sig,
      reachable publisher L ->
      (snd (execute L (mkTransaction who (CallUpdateShipment oid summary score sig)))
       = Success
       <->
       (exists s, objects L !! oid = Some (AddressOwner who, ObjShipment s)) /\
       score <= 100 /\
       string.internal_check_utf8 summary = true)).
Proof.
  split; [|split; [|split; [|split; [|split]]]].
  - intros. rewrite !execute_oracle_update.
    destruct (_ <=? _); [destruct (_ && _)|]; reflexivity.
  - intros. rewrite !execute_update_shipment.
    destruct (objects L !! oid) as [[o [s|r]]|]; try reflexivity.
    destruct (may_use who o); try reflexivity.
    destruct (_ <=? _); [destruct (string.internal_check_utf8 _)|]; reflexivity.
  - intros sid summary score sig clk st st'. rewrite oracle_update_run.
    destruct (_ <=? _); [destruct (_ && _)|]; intros H; try discriminate H.
    injection H as <-. cbn. eexists. rewrite lookup_insert_eq.
    split; reflexivity.
  - intros s summary score sig clk st s' st'. rewrite update_shipment_run.
    destruct (_ <=? _); [destruct (string.internal_check_utf8 _)|];
      intros H; try discriminate H.
    injection H as <- _. reflexivity.
  - intros L tx code. run_tx tx.
    + destruct (_ <=? _); [destruct (_ && _)|]; cbn; intros H;
        try discriminate H. injection H as <-. reflexivity.
    + destruct (_ <=? _); [destruct (_ && _)|]; cbn; intros H;
        try discriminate H. injection H as <-. reflexivity.
    + destruct (objects L !! oid) as [[o [s|r]]|]; cbn;
        try (intros H; discriminate H).
      destruct (may_use who o); cbn; try (intros H; discriminate H).
      destruct (_ <=? _); [destruct (string.internal_check_utf8 _)|]; cbn;
        intros H; try discriminate H. injection H as <-. reflexivity.
  - intros publisher L who oid summary score sig HL.
    apply reachable_shipments_are_owned in HL.
    rewrite execute_update_shipment.
    destruct (objects L !! oid) as [[o [s|r]]|] eqn:Hoid; cbn.
    + destruct (HL _ _ _ Hoid) as [a ->]. cbn.
      destruct (N.eqb_spec a who) as [->|Hne].
      * destruct (score <=? 100) eqn:Hle.
        -- apply Z.leb_le in Hle.
           destruct (string.internal_check_utf8 summary); cbn.
           ++ split; [intros _|reflexivity]. split; [eauto|]. split; [lia|reflexivity].
           ++ split; [intros H; discriminate H|]. intros (_ & _ & H). discriminate H.
        -- apply Z.leb_gt in Hle. cbn.
           split; [intros H; discriminate H|]. intros (_ & H & _). lia.
      * split; [intros H; discriminate H|]. intros ([s' Hs'] & _). congruence.
    + split; [intros H; discriminate H|]. intros ([s' Hs'] & _). discriminate Hs'.
    + split; [intros H; discriminate H|]. intros ([s' Hs'] & _). discriminate Hs'.
Qed.

Lemma signature_is_not_verified_witness :
  snd (execute Scenario.once Scenario.revise) = Success
  <->
  (exists s, objects Scenario.once !! (1%N, 0%N)
             = Some (AddressOwner Scenario.oracle, ObjShipment s)) /\
  90 <= 100 /\
  string.internal_check_utf8 (Scenario.text "delay 5h") = true.
Proof.
  apply (proj2 (proj2 (proj2 (proj2 (proj2 signature_is_not_verified))))
           Scenario.oracle Scenario.once Scenario.oracle (1%N, 0%N)
           (Scenario.text "delay 5h") 90 (Scenario.text "still not one")).
  exact scenario_once_reachable.
Defined.

(* ===================================================================== *)
(** ** The registry *)
(* ===================================================================== *)

(** C9. Publishing the package runs [init], which creates one
    [ShipmentRegistry], owned by nobody (shared), holding the publisher's
    address. On every reachable ledger that registry is still in the store
    under its id with the same fields, and it is the only registry: no
    entry function creates, changes or removes one. A registry has no field
    a record could be stored in; records are objects of their own. *)
Theorem registry_is_created_once publisher :
  (forall now,
      objects (publish publisher now) = {[ (0%N, 0%N) := the_registry publisher ]}) /\
  (forall st,
      init st
      = (Return tt,
         mkTxState
           (mkTxContext (ctx_sender (tx_ctx st)) (ctx_tx_hash (tx_ctx st))
                        (N.succ (ctx_ids_created (tx_ctx st))))
           (tx_events st)
           (<[(ctx_tx_hash (tx_ctx st), ctx_ids_created (tx_ctx st)) :=
                (Shared,
                 ObjRegistry
                   {| registry_id := mkUID (ctx_tx_hash (tx_ctx st),
                                            ctx_ids_created (tx_ctx st));
                      owner := ctx_sender (tx_ctx st) |})]>
              (tx_objects st)))) /\
  (forall L, reachable publisher L -> one_registry publisher L).
Proof.
  split; [intros; apply publish_objects|]. split; [reflexivity|].
  induction 1 as [now Hnow | L tx HL IH Hwf | L now HL IH Hle Hnow].
  - unfold one_registry. rewrite publish_objects. split.
    + apply lookup_singleton_eq.
    + intros k o r Hk. apply lookup_singleton_Some in Hk as [<- _]. reflexivity.
  - destruct IH as [Hreg Honly].
    pose proof (reachable_first_id_fresh _ _ HL) as Hfresh.
    assert (Hne : first_id L <> (0%N, 0%N)).
    { intros Heq. rewrite Heq in Hfresh.
      pose proof (eq_trans (eq_sym Hreg) Hfresh) as Hbad. discriminate Hbad. }
    unfold one_registry. run_tx tx.
    + destruct (_ <=? _); [destruct (_ && _)|]; cbn -[first_id];
        try (split; assumption).
      split.
      * rewrite lookup_insert_ne by exact Hne. exact Hreg.
      * intros k o r Hk.
        apply lookup_insert_Some in Hk as [[_ Hk]|[_ Hk]]; [discriminate Hk|].
        exact (Honly _ _ _ Hk).
    + destruct (_ <=? _); [destruct (_ && _)|]; cbn -[first_id];
        try (split; assumption).
      split.
      * rewrite lookup_insert_ne by exact Hne. exact Hreg.
      * intros k o r Hk.
        apply lookup_insert_Some in Hk as [[_ Hk]|[_ Hk]]; [discriminate Hk|].
        exact (Honly _ _ _ Hk).
    + destruct (objects L !! oid) as [[o0 [s0|r0]]|] eqn:Hoid; cbn;
        try (split; assumption).
      destruct (may_use who o0); cbn; try (split; assumption).
      destruct (_ <=? _); [destruct (string.internal_check_utf8 _)|]; cbn;
        try (split; assumption).
      assert (Hoid0 : oid <> (0%N, 0%N)).
      { intros ->. pose proof (eq_trans (eq_sym Hreg) Hoid) as Hbad.
        discriminate Hbad. }
      split.
      * rewrite lookup_insert_ne by exact Hoid0. exact Hreg.
      * intros k o r Hk.
        apply lookup_insert_Some in Hk as [[_ Hk]|[_ Hk]]; [discriminate Hk|].
        exact (Honly _ _ _ Hk).
  - exact IH.
Qed.

Lemma registry_is_created_once_witness :
  one_registry Scenario.oracle Scenario.once.
Proof.
  apply (proj2 (proj2 (registry_is_created_once Scenario.oracle)) Scenario.once).
  exact scenario_once_reachable.
Defined.


(* ===================================================================== *)
(** ** When a call aborts *)
(* ===================================================================== *)

(** C10. With a score of at most 100, [oracle_update] and
    [create_shipment] return when [shipment_id] and [ai_summary] are both
    well-formed UTF-8, and [update_shipment] returns when [new_summary] is;
    when one of these vectors is not UTF-8 the call aborts inside
    [string::utf8], with [EINVALID_UTF8] of [std::string], before any
    effect. Whatever the score, a call with such a vector aborts (the
    score is checked first, so above 100 the abort is the score's). *)
Theorem calls_abort_only_on_invalid_utf8 :
  (forall score,
      score <= 100 ->
      forall sid summary sig clk st (s : Shipment),
        (string.internal_check_utf8 sid = true ->
         string.internal_check_utf8 summary = true ->
         (exists st', oracle_update sid summary score sig clk st = (Return tt, st')) /\
         (exists st', create_shipment sid summary score clk st = (Return tt, st'))) /\
        (string.internal_check_utf8 summary = true ->
         exists s' st', update_shipment s summary score sig clk st = (Return s', st')) /\
        (string.internal_check_utf8 sid = false \/
         string.internal_check_utf8 summary = false ->
         oracle_update sid summary score sig clk st
         = (Abort mod_std_string string.EINVALID_UTF8, st) /\
         create_shipment sid summary score clk st
         = (Abort mod_std_string string.EINVALID_UTF8, st)) /\
        (string.internal_check_utf8 summary = false ->
         update_shipment s summary score sig clk st
         = (Abort mod_std_string string.EINVALID_UTF8, st))) /\
  (forall score sid summary sig clk st (s : Shipment),
      (string.internal_check_utf8 sid = false \/
       string.internal_check_utf8 summary = false ->
       (exists m code, oracle_update sid summary score sig clk st = (Abort m code, st)) /\
       (exists m code, create_shipment sid summary score clk st = (Abort m code, st))) /\
      (string.internal_check_utf8 summary = false ->
       exists m code, update_shipment s summary score sig clk st = (Abort m code, st))).
Proof.
  split.
  - intros score Hscore sid summary sig clk st s.
    apply Z.leb_le in Hscore.
    rewrite oracle_update_run, create_shipment_run, update_shipment_run, Hscore.
    split; [|split; [|split]].
    + intros -> ->. cbn. eauto.
    + intros ->. cbn. eauto.
    + intros [-> | ->]; [|rewrite andb_false_r]; cbn; split; reflexivity.
    + intros ->. reflexivity.
  - intros score sid summary sig clk st s.
    rewrite oracle_update_run, create_shipment_run, update_shipment_run.
    split.
    + intros [-> | ->]; [|rewrite andb_false_r]; cbn;
        destruct (_ <=? _); split; eauto.
    + intros ->. destruct (_ <=? _); eauto.
Qed.

Lemma calls_abort_only_on_invalid_utf8_witness :
  (exists st',
      oracle_update (Scenario.text "SHIP-1") (Scenario.text "delay 2h") 82
                    (Scenario.text "not a signature") (mkClock 1000) Scenario.st0
      = (Return tt, st')) /\
  oracle_update (Scenario.text "SHIP-1") Scenario.bad_text 82
                (Scenario.text "not a signature") (mkClock 1000) Scenario.st0
  = (Abort mod_std_string string.EINVALID_UTF8, Scenario.st0).
Proof.
  assert (H82 : 82 <= 100) by lia.
  pose proof (proj1 calls_abort_only_on_invalid_utf8 82 H82) as H.
  split.
  - apply (proj1 (H (Scenario.text "SHIP-1") (Scenario.text "delay 2h")
                    (Scenario.text "not a signature") (mkClock 1000) Scenario.st0
                    Scenario.the_record));
      vm_compute; reflexivity.
  - apply (proj1 (proj2 (proj2 (H (Scenario.text "SHIP-1") Scenario.bad_text
                    (Scenario.text "not a signature") (mkClock 1000) Scenario.st0
                    Scenario.the_record)))).
    right. vm_compute. reflexivity.
Defined.


(* ===================================================================== *)
(** ** Further properties of the contract *)
(* ===================================================================== *)



(** What a transaction does to an object that is already in the store of
    a ledger whose ids are all in the past: a registry is left as it is, a
    record stays under its id with its owner, its [id] and its
    [shipment_id]. *)
Lemma execute_keeps_record L tx k o s :
  ids_are_past L ->
  objects L !! k = Some (o, ObjShipment s) ->
  exists s',
    objects (fst (execute L tx)) !! k = Some (o, ObjShipment s') /\
    id s' = id s /\ shipment_id s' = shipment_id s.
Proof.
  intros Hpast Hk.
  assert (Hne : first_id L <> k).
  { intros <-. apply Hpast in Hk. cbn in Hk. lia. }
  run_tx tx.
  - destruct (_ <=? _); [destruct (_ && _)|]; cbn -[first_id]; eauto.
    exists s. rewrite lookup_insert_ne by exact Hne. auto.
  - destruct (_ <=? _); [destruct (_ && _)|]; cbn -[first_id]; eauto.
    exists s. rewrite lookup_insert_ne by exact Hne. auto.
  - destruct (objects L !! oid) as [[o0 [s0|r0]]|] eqn:Hoid; cbn; eauto.
    destruct (may_use who o0); cbn; eauto.
    destruct (_ <=? _); [destruct (string.internal_check_utf8 _)|]; cbn; eauto.
    destruct (decide (oid = k)) as [->|Hoidk].
    + pose proof (eq_trans (eq_sym Hoid) Hk) as Heq. injection Heq as -> ->.
      eexists. rewrite lookup_insert_eq. split; [reflexivity|]. split; reflexivity.
    + exists s. rewrite lookup_insert_ne by exact Hoidk. auto.
Qed.

Lemma reachable_run publisher L txs :
  reachable publisher L ->
  Forall (fun tx => wf_call (tx_call tx)) txs ->
  reachable publisher (run L txs).
Proof.
  intros HL Hwf. revert L HL.
  induction Hwf as [|tx txs Htx _ IH]; intros L HL; [exact HL|].
  cbn. apply IH. apply reach_execute; assumption.
Qed.

(** X2. Records are never removed and never renamed. A record found on a
    reachable ledger is still there after any sequence of well-typed calls,
    under the same object id and with the same owner, the same [id] and
    the same [shipment_id]; only [update_shipment] on that object can have
    changed its other fields. *)
Theorem records_are_never_removed publisher L txs k o s :
  reachable publisher L ->
  Forall (fun tx => wf_call (tx_call tx)) txs ->
  objects L !! k = Some (o, ObjShipment s) ->
  exists s',
    objects (run L txs) !! k = Some (o, ObjShipment s') /\
    id s' = id s /\ shipment_id s' = shipment_id s.
Proof.
  intros HL Hwf. revert L HL s.
  induction Hwf as [|tx txs Htx _ IH]; intros L HL s Hk.
  - exists s. auto.
  - cbn.
    destruct (execute_keeps_record L tx k o s (reachable_ids_are_past _ _ HL) Hk)
      as (s1 & Hk1 & Hid1 & Hsid1).
    destruct (IH (fst (execute L tx)) (reach_execute _ _ _ HL Htx) s1 Hk1)
      as (s' & Hk' & Hid' & Hsid').
    exists s'. split; [exact Hk'|]. split; congruence.
Qed.

Lemma records_are_never_removed_witness :
  exists s',
    objects (run Scenario.once [Scenario.revise; Scenario.submit]) !! (1%N, 0%N)
    = Some (AddressOwner Scenario.oracle, ObjShipment s') /\
    id s' = id Scenario.the_record /\
    shipment_id s' = shipment_id Scenario.the_record.
Proof.
  apply (records_are_never_removed Scenario.oracle Scenario.once
           [Scenario.revise; Scenario.submit]).
  - exact scenario_once_reachable.
  - repeat constructor; unfold wf_call, is_u64; cbn; lia.
  - vm_compute. reflexivity.
Defined.

(** Where a record found after a transaction comes from: it was there
    before and was not touched, or the transaction is an accepted
    [oracle_update] or [create_shipment] that created it, or an accepted
    [update_shipment] that rewrote it. *)
Lemma execute_record_origin L tx k o s :
  objects (fst (execute L tx)) !! k = Some (o, ObjShipment s) ->
  objects L !! k = Some (o, ObjShipment s) \/
  (exists sid summary score sig,
      tx_call tx = CallOracleUpdate sid summary score sig /\
      k = first_id L /\ o = AddressOwner (tx_sender tx) /\
      s = oracle_record L (tx_sender tx) sid summary score sig /\
      score <= 100 /\
      string.internal_check_utf8 sid = true /\
      string.internal_check_utf8 summary = true /\
      event_log (fst (execute L tx)) = event_log L ++ [updated_event_of s]) \/
  (exists sid summary score,
      tx_call tx = CallCreateShipment sid summary score /\
      k = first_id L /\ o = AddressOwner (tx_sender tx) /\
      s = oracle_record L (tx_sender tx) sid summary score [] /\
      score <= 100 /\
      string.internal_check_utf8 sid = true /\
      string.internal_check_utf8 summary = true /\
      event_log (fst (execute L tx)) = event_log L ++ [created_event_of s]) \/
  (exists s0 summary score sig,
      tx_call tx = CallUpdateShipment k summary score sig /\
      objects L !! k = Some (o, ObjShipment s0) /\
      may_use (tx_sender tx) o = true /\
      s = updated_record s0 (tx_sender tx) (ledger_clock L) summary score sig /\
      score <= 100 /\
      string.internal_check_utf8 summary = true /\
      event_log (fst (execute L tx)) = event_log L ++ [updated_event_of s]).
Proof.
  run_tx tx; cbn [tx_call tx_sender].
  - destruct (score <=? 100) eqn:Hle;
      [destruct (string.internal_check_utf8 sid) eqn:Hsid;
       [destruct (string.internal_check_utf8 summary) eqn:Hsum|]|];
      cbn -[first_id]; auto.
    apply Z.leb_le in Hle. intros Hk.
    apply lookup_insert_Some in Hk as [[<- Hk]|[_ Hk]]; [|auto].
    injection Hk as <- <-. right. left.
    exists sid, summary, score, sig. repeat split; auto.
  - destruct (score <=? 100) eqn:Hle;
      [destruct (string.internal_check_utf8 sid) eqn:Hsid;
       [destruct (string.internal_check_utf8 summary) eqn:Hsum|]|];
      cbn -[first_id]; auto.
    apply Z.leb_le in Hle. intros Hk.
    apply lookup_insert_Some in Hk as [[<- Hk]|[_ Hk]]; [|auto].
    injection Hk as <- <-. right. right. left.
    exists sid, summary, score. repeat split; auto.
  - destruct (objects L !! oid) as [[o0 [s0|r0]]|] eqn:Hoid; cbn; auto.
    destruct (may_use who o0) eqn:Huse; cbn; auto.
    destruct (score <=? 100) eqn:Hle;
      [destruct (string.internal_check_utf8 summary) eqn:Hsum|]; cbn; auto.
    apply Z.leb_le in Hle. intros Hk.
    apply lookup_insert_Some in Hk as [[<- Hk]|[_ Hk]]; [|auto].
    injection Hk as <- <-. right. right. right.
    exists s0, summary, score, sig. repeat split; auto.
Qed.

Lemma execute_clock L tx : ledger_clock (fst (execute L tx)) = ledger_clock L.
Proof.
  run_tx tx.
  - destruct (_ <=? _); [destruct (_ && _)|]; reflexivity.
  - destruct (_ <=? _); [destruct (_ && _)|]; reflexivity.
  - destruct (objects L !! oid) as [[o0 [s0|r0]]|]; try reflexivity.
    destruct (may_use who o0); try reflexivity.
    destruct (_ <=? _); [destruct (string.internal_check_utf8 _)|]; reflexivity.
Qed.

Lemma execute_log_grows L tx :
  exists evs, event_log (fst (execute L tx)) = event_log L ++ evs.
Proof.
  run_tx tx.
  - destruct (_ <=? _); [destruct (_ && _)|]; cbn; eauto using app_nil_r.
  - destruct (_ <=? _); [destruct (_ && _)|]; cbn; eauto using app_nil_r.
  - destruct (objects L !! oid) as [[o0 [s0|r0]]|]; cbn; eauto using app_nil_r.
    destruct (may_use who o0); cbn; eauto using app_nil_r.
    destruct (_ <=? _); [destruct (string.internal_check_utf8 _)|]; cbn;
      eauto using app_nil_r.
Qed.

Lemma publish_has_no_record publisher now k o s :
  objects (publish publisher now) !! k <> Some (o, ObjShipment s).
Proof.
  rewrite publish_objects. intros H.
  apply lookup_singleton_Some in H as [_ H]. discriminate H.
Qed.

(** X3. On a reachable ledger every record is stored under the id it
    carries in its [id] field, so two different objects never carry the
    same [id]. *)
Theorem record_ids_are_their_keys publisher L :
  reachable publisher L ->
  keys_match_ids L /\
  (forall i j oi oj si sj,
      objects L !! i = Some (oi, ObjShipment si) ->
      objects L !! j = Some (oj, ObjShipment sj) ->
      id si = id sj -> i = j).
Proof.
  intros HL.
  assert (Hkeys : keys_match_ids L).
  { induction HL as [now Hnow | L tx HL IH Hwf | L now HL IH Hle Hnow].
    - intros k o s Hk. destruct (publish_has_no_record _ _ _ _ _ Hk).
    - intros k o s Hk.
      destruct (execute_record_origin _ _ _ _ _ Hk)
        as [H | [(sid & summary & score & sig & _ & -> & _ & -> & _)
           | [(sid & summary & score & _ & -> & _ & -> & _)
           | (s0 & summary & score & sig & _ & H0 & _ & -> & _)]]].
      + exact (IH _ _ _ H).
      + reflexivity.
      + reflexivity.
      + exact (IH _ _ _ H0).
    - exact IH. }
  split; [exact Hkeys|].
  intros i j oi oj si sj Hi Hj Heq.
  rewrite <- (Hkeys _ _ _ Hi), <- (Hkeys _ _ _ Hj), Heq. reflexivity.
Qed.

Lemma record_ids_are_their_keys_witness : keys_match_ids Scenario.once.
Proof.
  apply (proj1 (record_ids_are_their_keys Scenario.oracle Scenario.once
                  scenario_once_reachable)).
Defined.

(** X4. As long as records are handled through this package's entry
    functions, a record is owned by the address in its [oracle_address]:
    [oracle_update] and [create_shipment] transfer the new record to the
    sender they store, and [update_shipment], which only the owner can
    call, stores the owner again. [get_oracle_address] therefore returns
    the owner. *)
Theorem record_owner_is_its_attester publisher L k o s :
  reachable publisher L ->
  objects L !! k = Some (o, ObjShipment s) ->
  o = AddressOwner (get_oracle_address s).
Proof.
  intros HL. revert k o s.
  induction HL as [now Hnow | L tx HL IH Hwf | L now HL IH Hle Hnow];
    intros k o s Hk.
  - destruct (publish_has_no_record _ _ _ _ _ Hk).
  - destruct (execute_record_origin _ _ _ _ _ Hk)
      as [H | [(sid & summary & score & sig & _ & _ & -> & -> & _)
         | [(sid & summary & score & _ & _ & -> & -> & _)
         | (s0 & summary & score & sig & _ & H0 & Huse & -> & _)]]].
    + exact (IH _ _ _ H).
    + reflexivity.
    + reflexivity.
    + rewrite (IH _ _ _ H0) in Huse |- *. cbn in Huse.
      apply N.eqb_eq in Huse. cbn. congruence.
  - exact (IH _ _ _ Hk).
Qed.

Lemma record_owner_is_its_attester_witness :
  AddressOwner Scenario.oracle = AddressOwner (get_oracle_address Scenario.the_record).
Proof.
  apply (record_owner_is_its_attester Scenario.oracle Scenario.once (1%N, 0%N)).
  - exact scenario_once_reachable.
  - vm_compute. reflexivity.
Defined.

(** X5. Every text a reachable ledger holds is well-formed UTF-8: the
    [shipment_id] and the [ai_summary] of a record only ever come out of
    [string::utf8], which refuses anything else. *)
Theorem stored_texts_are_utf8 publisher L :
  reachable publisher L -> texts_are_utf8 L.
Proof.
  induction 1 as [now Hnow | L tx HL IH Hwf | L now HL IH Hle Hnow];
    intros k o s Hk.
  - destruct (publish_has_no_record _ _ _ _ _ Hk).
  - destruct (execute_record_origin _ _ _ _ _ Hk)
      as [H | [(sid & summary & score & sig & _ & _ & _ & -> & _ & H1 & H2 & _)
         | [(sid & summary & score & _ & _ & _ & -> & _ & H1 & H2 & _)
         | (s0 & summary & score & sig & _ & H0 & _ & -> & _ & H2 & _)]]].
    + exact (IH _ _ _ H).
    + split; assumption.
    + split; assumption.
    + split; [exact (proj1 (IH _ _ _ H0)) | exact H2].
  - exact (IH _ _ _ Hk).
Qed.

Lemma stored_texts_are_utf8_witness : texts_are_utf8 Scenario.once.
Proof.
  apply (stored_texts_are_utf8 Scenario.oracle). exact scenario_once_reachable.
Defined.

(** X6. With a clock that only moves forward, no record on a reachable
    ledger is dated after the ledger's clock, and an accepted
    [update_shipment] never moves the [timestamp] of a record backwards. *)
Theorem timestamps_follow_the_clock publisher L :
  reachable publisher L ->
  timestamps_are_past L /\
  (forall who oid summary score sig o s s',
      objects L !! oid = Some (o, ObjShipment s) ->
      objects (fst (execute L (mkTransaction who (CallUpdateShipment oid summary score sig))))
      !! oid = Some (o, ObjShipment s') ->
      get_timestamp s <= get_timestamp s').
Proof.
  intros HL.
  assert (Hpast : timestamps_are_past L).
  { induction HL as [now Hnow | L tx HL IH Hwf | L now HL IH Hle Hnow];
      intros k o s Hk.
    - destruct (publish_has_no_record _ _ _ _ _ Hk).
    - rewrite execute_clock.
      destruct (execute_record_origin _ _ _ _ _ Hk)
        as [H | [(sid & summary & score & sig & _ & _ & _ & -> & _)
           | [(sid & summary & score & _ & _ & _ & -> & _)
           | (s0 & summary & score & sig & _ & _ & _ & -> & _)]]];
        [exact (IH _ _ _ H) | cbn; lia ..].
    - cbn. specialize (IH _ _ _ Hk). lia. }
  split; [exact Hpast|].
  intros who oid summary score sig o s s' Hs Hs'.
  destruct (execute_record_origin _ _ _ _ _ Hs')
    as [H | [(? & ? & ? & ? & Hcall & _) | [(? & ? & ? & Hcall & _)
       | (s0 & ? & ? & ? & _ & H0 & _ & -> & _)]]]; try discriminate Hcall.
  - pose proof (eq_trans (eq_sym Hs) H) as Heq. injection Heq as ->.
    unfold get_timestamp. lia.
  - pose proof (eq_trans (eq_sym Hs) H0) as Heq. injection Heq as ->.
    unfold get_timestamp. cbn. exact (Hpast _ _ _ Hs).
Qed.

Lemma timestamps_follow_the_clock_witness : timestamps_are_past Scenario.once.
Proof.
  apply (proj1 (timestamps_follow_the_clock Scenario.oracle Scenario.once
                  scenario_once_reachable)).
Defined.

(** X7. The event log accounts for the current state of every record: for
    each record on a reachable ledger the log holds either the
    [ShipmentUpdated] with exactly its [shipment_id], score, [timestamp]
    and [oracle_address], or the [ShipmentCreated] with its [shipment_id]
    and [timestamp]. *)
Theorem every_record_is_logged publisher L :
  reachable publisher L -> records_are_logged L.
Proof.
  induction 1 as [now Hnow | L tx HL IH Hwf | L now HL IH Hle Hnow];
    intros k o s Hk.
  - destruct (publish_has_no_record _ _ _ _ _ Hk).
  - destruct (execute_record_origin _ _ _ _ _ Hk)
      as [H | [(sid & summary & score & sig & _ & _ & _ & _ & _ & _ & _ & Hlog)
         | [(sid & summary & score & _ & _ & _ & _ & _ & _ & _ & Hlog)
         | (s0 & summary & score & sig & _ & _ & _ & _ & _ & _ & Hlog)]]].
    + destruct (execute_log_grows L tx) as [evs ->].
      destruct (IH _ _ _ H) as [Hin|Hin]; [left|right];
        apply in_or_app; left; exact Hin.
    + left. rewrite Hlog. apply in_or_app. right. left. reflexivity.
    + right. rewrite Hlog. apply in_or_app. right. left. reflexivity.
    + left. rewrite Hlog. apply in_or_app. right. left. reflexivity.
  - exact (IH _ _ _ Hk).
Qed.

Lemma every_record_is_logged_witness : records_are_logged Scenario.revised.
Proof.
  apply (every_record_is_logged Scenario.oracle).
  apply (reach_execute _ Scenario.once Scenario.revise).
  - exact scenario_once_reachable.
  - unfold wf_call, is_u64. cbn. lia.
Defined.

(** X8. After an accepted [create_shipment] the record stored under the
    new id, owned by the sender, reads back the submitted [shipment_id],
    summary and score; its signature is empty, so [get_signature_length]
    is 0; the one event appended is the [ShipmentCreated] for it. *)
Theorem create_shipment_round_trip L who sid summary score :
  snd (execute L (mkTransaction who (CallCreateShipment sid summary score))) = Success ->
  exists s,
    objects (fst (execute L (mkTransaction who (CallCreateShipment sid summary score))))
    !! first_id L
    = Some (AddressOwner who, ObjShipment s) /\
    string.bytes (get_shipment_id s) = sid /\
    string.bytes (get_ai_summary s) = summary /\
    get_confidence_score s = score /\
    oracle_signature s = [] /\
    get_signature_length s = 0 /\
    get_timestamp s = clock_timestamp_ms (ledger_clock L) /\
    get_oracle_address s = who /\
    event_log (fst (execute L (mkTransaction who (CallCreateShipment sid summary score))))
    = event_log L ++ [created_event_of s].
Proof.
  rewrite execute_create_shipment.
  destruct (_ <=? _); [destruct (_ && _)|]; cbn -[first_id];
    intros H; try discriminate H.
  eexists. rewrite lookup_insert_eq. split; [reflexivity|].
  repeat split; reflexivity.
Qed.

Lemma create_shipment_round_trip_witness :
  exists s,
    objects (fst (execute Scenario.genesis
                    (mkTransaction Scenario.oracle
                       (CallCreateShipment (Scenario.text "SHIP-2") (Scenario.text "on time") 70))))
    !! first_id Scenario.genesis
    = Some (AddressOwner Scenario.oracle, ObjShipment s) /\
    string.bytes (get_shipment_id s) = Scenario.text "SHIP-2" /\
    string.bytes (get_ai_summary s) = Scenario.text "on time" /\
    get_confidence_score s = 70 /\
    oracle_signature s = [] /\
    get_signature_length s = 0 /\
    get_timestamp s = clock_timestamp_ms (ledger_clock Scenario.genesis) /\
    get_oracle_address s = Scenario.oracle /\
    event_log (fst (execute Scenario.genesis
                      (mkTransaction Scenario.oracle
                         (CallCreateShipment (Scenario.text "SHIP-2") (Scenario.text "on time") 70))))
    = event_log Scenario.genesis ++ [created_event_of s].
Proof.
  apply (create_shipment_round_trip Scenario.genesis Scenario.oracle
           (Scenario.text "SHIP-2") (Scenario.text "on time") 70).
  vm_compute. reflexivity.
Defined.

(** X9. [oracle_update] followed by [update_shipment]. Once an
    [oracle_update] has been accepted, the sender can update the record it
    created, under the id the first transaction derived, with any score of
    at most 100 and any UTF-8 summary: the record then reads back the
    original [shipment_id] with the new summary, score and signature, and
    the log has gained two [ShipmentUpdated] events, in that order. The
    same update sent by any other address is refused and changes
    nothing. *)
Theorem update_after_oracle_update L who sid summary score sig summary' score' sig' :
  snd (execute L (mkTransaction who (CallOracleUpdate sid summary score sig))) = Success ->
  score' <= 100 ->
  string.internal_check_utf8 summary' = true ->
  let L1 := fst (execute L (mkTransaction who (CallOracleUpdate sid summary score sig))) in
  let update w := mkTransaction w (CallUpdateShipment (first_id L) summary' score' sig') in
  snd (execute L1 (update who)) = Success /\
  (exists s,
      objects (fst (execute L1 (update who))) !! first_id L
      = Some (AddressOwner who, ObjShipment s) /\
      string.bytes (get_shipment_id s) = sid /\
      string.bytes (get_ai_summary s) = summary' /\
      get_confidence_score s = score' /\
      oracle_signature s = sig' /\
      get_oracle_address s = who) /\
  event_log (fst (execute L1 (update who)))
  = event_log L ++
    [EvShipmentUpdated
       {| updated_shipment_id := string.mkString sid;
          updated_confidence_score := score;
          updated_timestamp := clock_timestamp_ms (ledger_clock L);
          updated_oracle_address := who |};
     EvShipmentUpdated
       {| updated_shipment_id := string.mkString sid;
          updated_confidence_score := score';
          updated_timestamp := clock_timestamp_ms (ledger_clock L);
          updated_oracle_address := who |}] /\
  (forall other, other <> who -> execute L1 (update other) = (L1, InvalidInput)).
Proof.
  intros Hok Hscore Hsum L1 update. subst L1 update.
  rewrite execute_oracle_update in *.
  destruct (score <=? 100); [destruct (_ && _)|]; cbn -[first_id execute] in *;
    try discriminate Hok.
  apply Z.leb_le in Hscore.
  split; [|split; [|split]].
  - rewrite execute_update_shipment. cbn -[first_id].
    rewrite lookup_insert_eq. cbn -[first_id].
    rewrite N.eqb_refl, Hscore, Hsum. reflexivity.
  - rewrite execute_update_shipment. cbn -[first_id].
    rewrite lookup_insert_eq. cbn -[first_id].
    rewrite N.eqb_refl, Hscore, Hsum. cbn -[first_id].
    eexists. rewrite lookup_insert_eq. split; [reflexivity|].
    repeat split; reflexivity.
  - rewrite execute_update_shipment. cbn -[first_id].
    rewrite lookup_insert_eq. cbn -[first_id].
    rewrite N.eqb_refl, Hscore, Hsum. cbn -[first_id].
    rewrite <- app_assoc. reflexivity.
  - intros other Hother. rewrite execute_update_shipment. cbn -[first_id].
    rewrite lookup_insert_eq. cbn -[first_id].
    destruct (N.eqb_spec who other) as [->|_]; [congruence|reflexivity].
Qed.

Lemma update_after_oracle_update_witness :
  snd (execute Scenario.once Scenario.revise) = Success.
Proof.
  apply (update_after_oracle_update Scenario.genesis Scenario.oracle
           (Scenario.text "SHIP-1") (Scenario.text "delay 2h") 82
           (Scenario.text "not a signature")
           (Scenario.text "delay 5h") 90 (Scenario.text "still not one")).
  - vm_compute. reflexivity.
  - lia.
  - vm_compute. reflexivity.
Defined.

(** X10. [oracle_update] and [create_shipment] are open to every address:
    whether a call is accepted, and how it aborts otherwise, depends on its
    arguments alone and is the same for every sender on every ledger. No
    call compares the sender with the [owner] of the registry. *)
Theorem anyone_may_attest L L' who who' sid summary score sig :
  snd (execute L (mkTransaction who (CallOracleUpdate sid summary score sig)))
  = snd (execute L' (mkTransaction who' (CallOracleUpdate sid summary score sig))) /\
  snd (execute L (mkTransaction who (CallCreateShipment sid summary score)))
  = snd (execute L' (mkTransaction who' (CallCreateShipment sid summary score))).
Proof.
  rewrite !execute_oracle_update, !execute_create_shipment.
  destruct (_ <=? _); [destruct (_ && _)|]; split; reflexivity.
Qed.

(** X11. The last update wins. When an [update_shipment] is accepted on a
    ledger, it is accepted just as well right after any other
    [update_shipment] of the same object, and the store it leaves is the
    same in both cases: nothing of the earlier update remains in the
    record. *)
Theorem last_update_wins L who1 who2 oid summary1 score1 sig1 summary2 score2 sig2 :
  let first := mkTransaction who1 (CallUpdateShipment oid summary1 score1 sig1) in
  let second := mkTransaction who2 (CallUpdateShipment oid summary2 score2 sig2) in
  snd (execute L second) = Success ->
  snd (execute (fst (execute L first)) second) = Success /\
  objects (fst (execute (fst (execute L first)) second))
  = objects (fst (execute L second)).
Proof.
  intros first second. subst first second.
  rewrite (execute_update_shipment L who2).
  destruct (objects L !! oid) as [[o [s|r]]|] eqn:Hoid; cbn -[execute];
    try (intros H; discriminate H).
  destruct (may_use who2 o) eqn:Huse2; cbn -[execute];
    try (intros H; discriminate H).
  destruct (score2 <=? 100) eqn:Hle2;
    [destruct (string.internal_check_utf8 summary2) eqn:Hsum2|]; cbn -[execute];
    intros H; try discriminate H. clear H.
  rewrite (execute_update_shipment L who1), Hoid.
  destruct (may_use who1 o); cbn -[execute].
  - destruct (score1 <=? 100); [destruct (string.internal_check_utf8 summary1)|];
      cbn -[execute].
    + rewrite execute_update_shipment. cbn.
      rewrite lookup_insert_eq, Huse2, Hle2, Hsum2. cbn.
      split; [reflexivity|]. apply insert_insert_eq.
    + rewrite execute_update_shipment. cbn.
      rewrite Hoid, Huse2, Hle2, Hsum2. cbn. split; reflexivity.
    + rewrite execute_update_shipment. cbn.
      rewrite Hoid, Huse2, Hle2, Hsum2. cbn. split; reflexivity.
  - rewrite execute_update_shipment.
    rewrite Hoid, Huse2, Hle2, Hsum2. cbn. split; reflexivity.
Qed.

Lemma last_update_wins_witness :
  snd (execute (fst (execute Scenario.once
                       (mkTransaction Scenario.oracle
                          (CallUpdateShipment (1%N, 0%N) (Scenario.text "delay 3h") 50 []))))
         Scenario.revise) = Success /\
  objects (fst (execute (fst (execute Scenario.once
                       (mkTransaction Scenario.oracle
                          (CallUpdateShipment (1%N, 0%N) (Scenario.text "delay 3h") 50 []))))
         Scenario.revise))
  = objects Scenario.revised.
Proof.
  apply (last_update_wins Scenario.once Scenario.oracle Scenario.oracle (1%N, 0%N)
           (Scenario.text "delay 3h") 50 []
           (Scenario.text "delay 5h") 90 (Scenario.text "still not one")).
  vm_compute. reflexivity.
Defined.


(* ===================================================================== *)
(** ** Properties of the front-end service *)
(* ===================================================================== *)

Lemma take_min_length {A} (n : nat) (l : list A) :
  firstn (Nat.min n (length l)) l = firstn n l.
Proof.
  destruct (Nat.le_gt_cases (length l) n) as [Hle|Hgt].
  - rewrite Nat.min_r by exact Hle. rewrite !take_ge; [reflexivity|lia|lia].
  - rewrite Nat.min_l by lia. reflexivity.
Qed.

(** [s.slice(0, n)] is the first [n] code units. *)
Lemma slice_head (s : jsstring) (n : nat) :
  js.slice s 0 (Some (Z.of_nat n)) = firstn n s.
Proof.
  unfold js.slice, js.relative_index.
  destruct (Z.ltb_spec (Z.of_nat n) 0) as [Hneg|_]; [lia|]. cbn [Z.ltb Z.compare].
  replace (Z.to_nat (Z.min 0 (Z.of_nat (length s)))) with 0%nat by lia.
  replace (Z.to_nat _) with (Nat.min n (length s)) by lia.
  cbn [skipn]. apply take_min_length.
Qed.

(** [s.slice(-n)] is the last [n] code units. *)
Lemma slice_tail (s : jsstring) (n : nat) :
  (0 < n)%nat ->
  js.slice s (- Z.of_nat n) None = skipn (length s - n) s.
Proof.
  intros Hn. unfold js.slice, js.relative_index.
  destruct (Z.ltb_spec (- Z.of_nat n) 0) as [_|Hpos]; [|lia].
  replace (Z.to_nat (Z.max (Z.of_nat (length s) + - Z.of_nat n) 0))
    with (length s - n)%nat by lia.
  apply take_ge. rewrite length_drop. lia.
Qed.

(** X12. [formatAddress] on an address of at least ten characters gives
    its first six characters, three dots and its last four: thirteen
    characters in all. *)
Theorem formatAddress_of_a_long_address (a : jsstring) :
  (10 <= length a)%nat ->
  SuiService.formatAddress (Some a)
  = firstn 6 a ++ js.lit "..." ++ skipn (length a - 4) a /\
  length (SuiService.formatAddress (Some a)) = 13%nat.
Proof.
  intros Hlen. destruct a as [|c r]; [cbn in Hlen; lia|].
  unfold SuiService.formatAddress.
  change 6 with (Z.of_nat 6). change (-4) with (- Z.of_nat 4).
  rewrite slice_head, slice_tail by lia.
  split; [reflexivity|].
  rewrite !length_app, length_take, length_drop.
  change (length (js.lit "...")) with 3%nat. lia.
Qed.

Lemma formatAddress_of_a_long_address_witness :
  SuiService.formatAddress (Some (js.lit "0x1234567890abcdef"))
  = js.lit "0x1234...cdef".
Proof.
  assert (H : (10 <= length (js.lit "0x1234567890abcdef"))%nat) by (vm_compute; lia).
  exact (proj1 (formatAddress_of_a_long_address _ H)).
Defined.

(** X13. [formatAddress] returns the empty string for [null], [undefined]
    and the empty string. It never returns more than thirteen characters,
    and what it returns is shorter than the address exactly when the
    address has more than thirteen characters: a shorter address comes out
    longer than it went in (["abc"] becomes ["abc...abc"]). *)
Theorem formatAddress_length :
  SuiService.formatAddress None = [] /\
  SuiService.formatAddress (Some []) = [] /\
  (forall a : jsstring,
      a <> [] ->
      length (SuiService.formatAddress (Some a))
      = (Nat.min 6 (length a) + 3 + Nat.min 4 (length a))%nat /\
      (length (SuiService.formatAddress (Some a)) <= 13)%nat /\
      ((length (SuiService.formatAddress (Some a)) < length a)%nat
       <-> (13 < length a)%nat)).
Proof.
  split; [reflexivity|]. split; [reflexivity|].
  intros a Ha. destruct a as [|c r]; [congruence|].
  unfold SuiService.formatAddress.
  change 6 with (Z.of_nat 6). change (-4) with (- Z.of_nat 4).
  rewrite slice_head, slice_tail by lia.
  rewrite !length_app, length_take, length_drop.
  change (length (js.lit "...")) with 3%nat. lia.
Qed.

Lemma formatAddress_length_witness :
  length (SuiService.formatAddress (Some (js.lit "abc"))) = 9%nat.
Proof.
  assert (H : js.lit "abc" <> []) by (vm_compute; discriminate).
  exact (proj1 (proj2 (proj2 formatAddress_length) _ H)).
Defined.

(** X14. Explorer links identify what they link to: two transaction
    digests with the same link are the same digest, likewise two object
    ids, and a transaction link is never an object link. *)
Theorem explorer_links_are_distinct (self : SuiService.t) :
  (forall d1 d2,
      SuiService.getExplorerUrl self d1 = SuiService.getExplorerUrl self d2 -> d1 = d2) /\
  (forall o1 o2,
      SuiService.getObjectExplorerUrl self o1 = SuiService.getObjectExplorerUrl self o2 ->
      o1 = o2) /\
  (forall d o,
      SuiService.getExplorerUrl self d <> SuiService.getObjectExplorerUrl self o).
Proof.
  unfold SuiService.getExplorerUrl, SuiService.getObjectExplorerUrl.
  split; [|split].
  - intros d1 d2 H. apply app_inv_head in H. apply app_inv_head in H. exact H.
  - intros o1 o2 H. apply app_inv_head in H. apply app_inv_head in H. exact H.
  - intros d o H. apply app_inv_head in H. vm_compute in H. discriminate H.
Qed.

Lemma explorer_links_are_distinct_witness :
  js.lit "abc" = js.lit "abc".
Proof.
  apply (proj1 (explorer_links_are_distinct (SuiService.constructor None None))).
  reflexivity.
Defined.

(** [connect] either fails and returns the service as it was, or succeeds
    with the first account of the wallet. *)
Lemma connect_cases window self :
  (exists e, SuiService.connect window self = (self, SuiService.ConnectFailure e)) \/
  (exists a,
      SuiService.connect window self
      = ({| SuiService.network := SuiService.network self;
            SuiService.packageId := SuiService.packageId self;
            SuiService.connected := true;
            SuiService.address := Some a |},
         SuiService.ConnectSuccess a (SuiService.getWalletName window)) /\
      SuiService.isWalletInstalled window = true).
Proof.
  unfold SuiService.connect, SuiService.isWalletInstalled.
  destruct (SuiService.getWallet window) as [wallet|]; [|eauto].
  match goal with
  | |- context [match ?acc with js.Resolved _ => _ | js.Rejected _ => _ end] =>
      destruct acc as [[[|first rest]|]|message]
  end; eauto.
Qed.

(** X15. The service is connected exactly when it holds an address. This
    holds for a new service and after any sequence of [connect] and
    [disconnect], whatever the wallets answer. *)
Theorem connection_state_is_consistent net pkg (ops : list SuiService.Op) :
  SuiService.consistent
    (fold_left SuiService.step ops (SuiService.constructor net pkg)).
Proof.
  assert (Hstep : forall self op,
             SuiService.consistent self -> SuiService.consistent (SuiService.step self op)).
  { intros self [window|] Hself; cbn.
    - destruct (connect_cases window self) as [[e ->]|[a [-> _]]]; [exact Hself|].
      split; cbn; [eauto | discriminate].
    - split; cbn; [discriminate | reflexivity]. }
  assert (Hrun : forall self, SuiService.consistent self ->
                              SuiService.consistent (fold_left SuiService.step ops self)).
  { induction ops as [|op ops IH]; intros self Hself; [exact Hself|].
    cbn. apply IH, Hstep, Hself. }
  apply Hrun. split; cbn; [discriminate | reflexivity].
Qed.

(** X16. A successful [connect] leaves the service connected to the
    address it reports, on the same network and package, and that address
    is the first account in the answer of the wallet that decides: with
    Suishi installed the accounts of its [connect()] response, or of its
    [requestPermissions()] when [connect()] rejected, and otherwise the
    accounts of [requestPermissions()]. It only succeeds when a wallet is
    installed, and the wallet name it reports is that of [getWalletName],
    never ["Unknown"]. Conversely, whenever that answer starts with an
    account, [connect] succeeds with it. *)
Theorem connect_success window self :
  (forall self' a name,
      SuiService.connect window self = (self', SuiService.ConnectSuccess a name) ->
      SuiService.isConnected self' = true /\
      SuiService.getAddress self' = Some a /\
      SuiService.network self' = SuiService.network self /\
      SuiService.packageId self' = SuiService.packageId self /\
      SuiService.isWalletInstalled window = true /\
      name = SuiService.getWalletName window /\
      name <> js.lit "Unknown" /\
      exists wallet,
        SuiService.getWallet window = Some wallet /\
        first_account_granted window wallet a) /\
  (forall wallet a,
      SuiService.getWallet window = Some wallet ->
      first_account_granted window wallet a ->
      SuiService.connect window self
      = ({| SuiService.network := SuiService.network self;
            SuiService.packageId := SuiService.packageId self;
            SuiService.connected := true;
            SuiService.address := Some a |},
         SuiService.ConnectSuccess a (SuiService.getWalletName window))).
Proof.
  split.
  - intros self' a name H.
    assert (Hgrant : exists wallet,
               SuiService.getWallet window = Some wallet /\
               first_account_granted window wallet a).
    { unfold SuiService.connect, first_account_granted in *.
      destruct window as [[[sw|] [w2|]]|]; cbn in *; try discriminate H.
      - exists sw. split; [reflexivity|].
        destruct (SuiService.wallet_connect sw) as [[[[|first rest]|]|]|e] eqn:Hc;
          cbn in H; try discriminate H.
        + injection H as _ <- _. left. eauto.
        + destruct (SuiService.wallet_requestPermissions sw)
            as [[[|first rest]|]|m] eqn:Hp; cbn in H; try discriminate H.
          injection H as _ <- _. right. eauto.
      - exists sw. split; [reflexivity|].
        destruct (SuiService.wallet_connect sw) as [[[[|first rest]|]|]|e] eqn:Hc;
          cbn in H; try discriminate H.
        + injection H as _ <- _. left. eauto.
        + destruct (SuiService.wallet_requestPermissions sw)
            as [[[|first rest]|]|m] eqn:Hp; cbn in H; try discriminate H.
          injection H as _ <- _. right. eauto.
      - exists w2. split; [reflexivity|].
        destruct (SuiService.wallet_requestPermissions w2)
          as [[[|first rest]|]|m] eqn:Hp; cbn in H; try discriminate H.
        injection H as _ <- _. eauto. }
    destruct (connect_cases window self) as [[e He]|[a' [Ha' Hinst]]].
    + rewrite He in H. discriminate H.
    + rewrite Ha' in H. injection H as <- <- <-. cbn.
      repeat split; try reflexivity; try exact Hinst; try exact Hgrant.
      unfold SuiService.isWalletInstalled, SuiService.getWallet in Hinst.
      unfold SuiService.getWalletName.
      destruct window as [[[w1|] [w2|]]|]; try discriminate Hinst;
        vm_compute; discriminate.
  - intros wallet a Hwallet Hgrant.
    unfold SuiService.connect, first_account_granted in *.
    destruct window as [[[sw|] [w2|]]|]; cbn in *; try discriminate Hwallet;
      injection Hwallet as ->.
    + destruct Hgrant as [[rest Hc]|(e & rest & Hc & Hp)].
      * rewrite Hc. reflexivity.
      * rewrite Hc, Hp. reflexivity.
    + destruct Hgrant as [[rest Hc]|(e & rest & Hc & Hp)].
      * rewrite Hc. reflexivity.
      * rewrite Hc, Hp. reflexivity.
    + destruct Hgrant as [rest Hp]. rewrite Hp. reflexivity.
Qed.

Lemma connect_success_witness :
  SuiService.isConnected Demo.connected_service = true /\
  SuiService.getAddress Demo.connected_service = Some (js.lit "0xA11CE") /\
  SuiService.network Demo.connected_service = SuiService.network Demo.service /\
  SuiService.packageId Demo.connected_service = SuiService.packageId Demo.service /\
  SuiService.isWalletInstalled Demo.both = true /\
  js.lit "Suishi Wallet" = SuiService.getWalletName Demo.both /\
  js.lit "Suishi Wallet" <> js.lit "Unknown" /\
  exists wallet,
    SuiService.getWallet Demo.both = Some wallet /\
    first_account_granted Demo.both wallet (js.lit "0xA11CE").
Proof.
  apply (proj1 (connect_success Demo.both Demo.service) Demo.connected_service
           (js.lit "0xA11CE") (js.lit "Suishi Wallet")).
  vm_compute. reflexivity.
Defined.

(** X17. A failed [connect] changes nothing: the service keeps the
    connection and the address it had, also when it was connected before.
    Without an installed wallet [connect] fails, and [disconnect] always
    leaves the service unconnected and without an address. *)
Theorem connect_failure_keeps_the_state window self :
  (forall self' e,
      SuiService.connect window self = (self', SuiService.ConnectFailure e) ->
      self' = self) /\
  (SuiService.isWalletInstalled window = false ->
   SuiService.connect window self
   = (self,
      SuiService.ConnectFailure
        (js.lit "No Sui wallet detected. Please install Suishi Wallet or Sui Wallet extension."))) /\
  SuiService.isConnected (SuiService.disconnect self) = false /\
  SuiService.getAddress (SuiService.disconnect self) = None.
Proof.
  split; [|split; [|split; reflexivity]].
  - intros self' e H.
    destruct (connect_cases window self) as [[e' He]|[a [Ha _]]].
    + rewrite He in H. injection H as <- _. reflexivity.
    + rewrite Ha in H. discriminate H.
  - unfold SuiService.isWalletInstalled, SuiService.connect.
    destruct (SuiService.getWallet window); [intros H; discriminate H|reflexivity].
Qed.

Lemma connect_failure_keeps_the_state_witness :
  fst (SuiService.connect Demo.standard_only Demo.connected_service)
  = Demo.connected_service.
Proof.
  apply (proj1 (connect_failure_keeps_the_state Demo.standard_only Demo.connected_service)
           _ (js.lit "User rejected the request")).
  vm_compute. reflexivity.
Defined.

(** X18. Suishi comes first. With a Suishi wallet installed, [connect]
    and [getWalletName] behave as if no standard wallet were there. When
    its [connect()] resolves, the result is decided by that response alone
    ([requestPermissions()] is not consulted): a response with a non-empty
    [accounts] connects to its first account as ["Suishi Wallet"]; a
    [null] response, a response without [accounts] and a response with an
    empty [accounts] all fail with ["No accounts found in wallet"]. When
    [connect()] rejects, [requestPermissions()] of the same wallet
    decides in the same way (its rejection message becomes the error), and
    the service ends up as it would with a standard wallet giving the same
    answer. *)
Theorem suishi_takes_precedence (w : SuiService.Wallet) (other : option SuiService.Wallet)
    (self : SuiService.t) :
  let suishi_window c p :=
    Some (SuiService.mkWindow (Some (SuiService.mkWallet c p)) other) in
  let connected_to a :=
    ({| SuiService.network := SuiService.network self;
        SuiService.packageId := SuiService.packageId self;
        SuiService.connected := true;
        SuiService.address := Some a |},
     SuiService.ConnectSuccess a (js.lit "Suishi Wallet")) in
  let no_accounts :=
    (self, SuiService.ConnectFailure (js.lit "No accounts found in wallet")) in
  SuiService.connect (Some (SuiService.mkWindow (Some w) other)) self
  = SuiService.connect (Some (SuiService.mkWindow (Some w) None)) self /\
  SuiService.getWalletName (Some (SuiService.mkWindow (Some w) other))
  = js.lit "Suishi Wallet" /\
  (forall response p p',
      SuiService.connect (suishi_window (js.Resolved response) p) self
      = SuiService.connect (suishi_window (js.Resolved response) p') self) /\
  (forall p a rest,
      SuiService.connect (suishi_window (js.Resolved (Some (Some (a :: rest)))) p) self
      = connected_to a) /\
  (forall p,
      SuiService.connect (suishi_window (js.Resolved None) p) self = no_accounts /\
      SuiService.connect (suishi_window (js.Resolved (Some None)) p) self = no_accounts /\
      SuiService.connect (suishi_window (js.Resolved (Some (Some []))) p) self
      = no_accounts) /\
  (forall e a rest,
      SuiService.connect
        (suishi_window (js.Rejected e) (js.Resolved (Some (a :: rest)))) self
      = connected_to a) /\
  (forall e,
      SuiService.connect (suishi_window (js.Rejected e) (js.Resolved None)) self
      = no_accounts /\
      SuiService.connect (suishi_window (js.Rejected e) (js.Resolved (Some []))) self
      = no_accounts) /\
  (forall e message,
      SuiService.connect (suishi_window (js.Rejected e) (js.Rejected message)) self
      = (self, SuiService.ConnectFailure message)) /\
  (forall e p,
      fst (SuiService.connect (suishi_window (js.Rejected e) p) self)
      = fst (SuiService.connect
               (Some (SuiService.mkWindow None (Some (SuiService.mkWallet (js.Rejected e) p))))
               self)).
Proof.
  intros suishi_window connected_to no_accounts.
  split; [reflexivity|]. split; [reflexivity|]. split; [reflexivity|].
  split; [reflexivity|]. split; [intros p; repeat split; reflexivity|].
  split; [reflexivity|]. split; [intros e; split; reflexivity|].
  split; [reflexivity|].
  intros e p. unfold SuiService.connect. cbn.
  destruct p as [[[|first rest]|]|message]; reflexivity.
Qed.

(** X19. [getWalletName] and [isWalletInstalled] agree: the name is
    ["Unknown"] exactly when no wallet is installed. *)
Theorem wallet_name_matches_detection (window : option SuiService.Window) :
  SuiService.getWalletName window = js.lit "Unknown"
  <-> SuiService.isWalletInstalled window = false.
Proof.
  unfold SuiService.getWalletName, SuiService.isWalletInstalled, SuiService.getWallet.
  destruct window as [[[w1|] [w2|]]|]; split; intros H;
    try reflexivity; try discriminate H; vm_compute in H; discriminate H.
Qed.

Lemma wallet_name_matches_detection_witness :
  SuiService.isWalletInstalled None = false.
Proof.
  apply (proj1 (wallet_name_matches_detection None)). reflexivity.
Defined.

(* ===================================================================== *)
(** ** Properties of the page components *)
(* ===================================================================== *)

(** The segments [split] returns hold no separator, and there is at least
    one. *)
Lemma split_segments (c : N) (s : jsstring) :
  Forall (fun seg => ~ In c seg) (js.split c s) /\ js.split c s <> [].
Proof.
  induction s as [|x rest [IH Hne]]; cbn.
  - split; [|discriminate]. constructor; [|constructor]. intros [].
  - destruct (N.eqb_spec x c) as [->|Hx].
    + split; [|discriminate]. constructor; [intros []|exact IH].
    + destruct (js.split c rest) as [|seg segs]; [congruence|].
      split; [|discriminate].
      inversion IH as [|? ? Hseg Hsegs]; subst.
      constructor; [|exact Hsegs].
      intros [Hin|Hin]; [congruence|exact (Hseg Hin)].
Qed.

(** A string without the separator is its own only segment. *)
Lemma split_without_separator (c : N) (s : jsstring) :
  ~ In c s -> js.split c s = [s].
Proof.
  induction s as [|x rest IH]; intros Hc; [reflexivity|]. cbn.
  destruct (N.eqb_spec x c) as [->|Hx]; [destruct Hc; left; reflexivity|].
  rewrite IH; [reflexivity|]. intros Hin. apply Hc. right. exact Hin.
Qed.

(** What follows the last separator is the last segment. *)
Lemma split_after_separator (c : N) (x rest : jsstring) :
  exists pre, js.split c (x ++ c :: rest) = pre ++ js.split c rest /\ pre <> [].
Proof.
  induction x as [|a x (pre & IH & Hpre)]; cbn.
  - rewrite N.eqb_refl. exists [[]]. split; [reflexivity|discriminate].
  - destruct (N.eqb_spec a c) as [->|Ha].
    + exists ([] :: pre). rewrite IH. split; [reflexivity|discriminate].
    + rewrite IH. destruct pre as [|p0 ps]; [congruence|].
      exists ((a :: p0) :: ps). split; [reflexivity|discriminate].
Qed.

Lemma pop_split_after_separator (c : N) (x name : jsstring) :
  ~ In c name -> js.pop (js.split c (x ++ c :: name)) = Some name.
Proof.
  intros Hname. unfold js.pop.
  destruct (split_after_separator c x name) as (pre & -> & _).
  rewrite (split_without_separator c name Hname).
  apply last_snoc.
Qed.

(** X20. The model name shown in the status panel is what follows the
    last slash of [ai_model] (all of [ai_model] when it has no slash), and
    ["Qwen3"] when that is empty, that is when [ai_model] is empty or ends
    in a slash, or when [ai_model] is missing. It is therefore never empty
    and never contains a slash. *)
Theorem ai_model_shown_is_a_plain_name (ai_model : option jsstring) :
  ChainStatus.ai_model_shown ai_model <> [] /\
  ~ In 0x2F%N (ChainStatus.ai_model_shown ai_model) /\
  (forall m, ai_model = Some m -> m <> [] -> ~ In 0x2F%N m ->
             ChainStatus.ai_model_shown ai_model = m) /\
  (forall x name,
      ai_model = Some (x ++ 0x2F%N :: name) -> name <> [] -> ~ In 0x2F%N name ->
      ChainStatus.ai_model_shown ai_model = name) /\
  (ai_model = None \/ ai_model = Some [] \/
   (exists x, ai_model = Some (x ++ [0x2F%N])) ->
   ChainStatus.ai_model_shown ai_model = js.lit "Qwen3").
Proof.
  assert (Hdefault : js.lit "Qwen3" <> [] /\ ~ In 0x2F%N (js.lit "Qwen3")).
  { split; [vm_compute; discriminate|].
    vm_compute. intros H. repeat destruct H as [H|H]; try discriminate H; exact H. }
  split; [|split; [|split; [|split]]].
  - destruct ai_model as [m|]; cbn; [|exact (proj1 Hdefault)].
    unfold js.pop. destruct (last (js.split 47 m)) as [[|c r]|]; cbn;
      try exact (proj1 Hdefault). discriminate.
  - destruct ai_model as [m|]; cbn; [|exact (proj2 Hdefault)].
    unfold js.pop. destruct (last (js.split 47 m)) as [[|c r]|] eqn:Hlast; cbn;
      try exact (proj2 Hdefault).
    apply last_Some in Hlast as [l' Hl'].
    pose proof (proj1 (split_segments 47 m)) as Hall.
    rewrite Hl' in Hall. apply Forall_app in Hall as [_ Hall].
    inversion Hall; subst. assumption.
  - intros m -> Hm Hslash. cbn. rewrite split_without_separator by exact Hslash.
    destruct m; [congruence|reflexivity].
  - intros x name -> Hname Hslash. cbn.
    rewrite pop_split_after_separator by exact Hslash.
    destruct name; [congruence|reflexivity].
  - intros [->|[->|[x ->]]]; [reflexivity|reflexivity|]. cbn.
    rewrite pop_split_after_separator by (intros []). reflexivity.
Qed.

Lemma ai_model_shown_is_a_plain_name_witness :
  ChainStatus.ai_model_shown (Some (js.lit "Qwen/Qwen3-8B")) = js.lit "Qwen3-8B".
Proof.
  apply (proj1 (proj2 (proj2 (proj2 (ai_model_shown_is_a_plain_name
                                       (Some (js.lit "Qwen/Qwen3-8B"))))))
           (js.lit "Qwen")).
  - reflexivity.
  - vm_compute. discriminate.
  - vm_compute. intros H. repeat destruct H as [H|H]; try discriminate H; exact H.
Defined.

(** X21. The package id shown in the status panel is the first eight
    characters of [contract_package] (all of it when it is shorter)
    followed by three dots, and ["Not configured"] when the id is missing
    or empty; it is never empty. *)
Theorem contract_shown_is_a_prefix (contract_package : option jsstring) :
  ChainStatus.contract_shown contract_package <> [] /\
  (forall p, contract_package = Some p -> p <> [] ->
             ChainStatus.contract_shown contract_package = firstn 8 p ++ js.lit "..." /\
             length (ChainStatus.contract_shown contract_package)
             = (Nat.min 8 (length p) + 3)%nat) /\
  (contract_package = None \/ contract_package = Some [] ->
   ChainStatus.contract_shown contract_package = js.lit "Not configured").
Proof.
  assert (Hsub : forall p : jsstring, js.substring p 0 8 = firstn 8 p).
  { intros p. unfold js.substring.
    replace (Z.to_nat (Z.min _ _)) with 0%nat by lia.
    replace (Z.to_nat _) with (Nat.min 8 (length p)) by lia.
    cbn [skipn]. apply take_min_length. }
  split; [|split].
  - destruct contract_package as [[|c r]|]; cbn -[js.substring];
      try (vm_compute; discriminate).
    rewrite Hsub. cbn. discriminate.
  - intros p -> Hp. destruct p as [|c r]; [congruence|].
    unfold ChainStatus.contract_shown. rewrite Hsub.
    split; [reflexivity|].
    rewrite length_app, length_take. change (length (js.lit "...")) with 3%nat. lia.
  - intros [->| ->]; reflexivity.
Qed.

Lemma contract_shown_is_a_prefix_witness :
  ChainStatus.contract_shown (Some (js.lit "0xabcdef0123")) = js.lit "0xabcdef...".
Proof.
  assert (H : js.lit "0xabcdef0123" <> []) by (vm_compute; discriminate).
  exact (proj1 (proj1 (proj2 (contract_shown_is_a_prefix (Some (js.lit "0xabcdef0123"))))
                  _ eq_refl H)).
Defined.

Lemma trimStart_head (s : jsstring) c r :
  js.trimStart s = c :: r -> js.is_whitespace c = false.
Proof.
  induction s as [|x rest IH]; cbn; [discriminate|].
  destruct (js.is_whitespace x) eqn:Hx; [exact IH|].
  intros H. injection H as <- _. exact Hx.
Qed.

Lemma trimStart_nil (s : jsstring) :
  js.trimStart s = [] <-> forallb js.is_whitespace s = true.
Proof.
  induction s as [|x rest IH]; cbn; [tauto|].
  destruct (js.is_whitespace x); cbn; [exact IH|].
  split; discriminate.
Qed.

(** [trim] leaves nothing exactly of a string of white space. *)
Lemma trim_nil (s : jsstring) :
  js.trim s = [] <-> forallb js.is_whitespace s = true.
Proof.
  unfold js.trim. rewrite <- trimStart_nil. split.
  - intros H.
    assert (H1 : js.trimStart (rev (js.trimStart s)) = []).
    { rewrite <- (rev_involutive (js.trimStart (rev (js.trimStart s)))), H.
      reflexivity. }
    destruct (js.trimStart s) as [|c r] eqn:Hs; [reflexivity|].
    apply trimStart_nil in H1. rewrite forallb_forall in H1.
    pose proof (trimStart_head _ _ _ Hs) as Hc.
    rewrite (H1 c) in Hc; [discriminate Hc|].
    apply in_rev. rewrite rev_involutive. left. reflexivity.
  - intros ->. reflexivity.
Qed.

(** X22. [handleSubmit] calls [onSubmit] exactly when the description has
    a character that is not white space. It passes the description as
    typed, not trimmed, and passes [null] for an empty shipment id and the
    id itself otherwise. Whenever the submit button is enabled, submitting
    does call [onSubmit]. *)
Theorem handleSubmit_submits_non_blank (eventText shipmentId : jsstring) :
  (EventInput.handleSubmit eventText shipmentId = None
   <-> forallb js.is_whitespace eventText = true) /\
  (forall t i,
      EventInput.handleSubmit eventText shipmentId = Some (t, i) ->
      t = eventText /\
      (shipmentId = [] -> i = None) /\
      (shipmentId <> [] -> i = Some shipmentId)) /\
  (forall isLoading,
      EventInput.submit_disabled isLoading eventText = false ->
      exists call, EventInput.handleSubmit eventText shipmentId = Some call).
Proof.
  unfold EventInput.handleSubmit, EventInput.submit_disabled.
  rewrite <- trim_nil.
  destruct (js.trim eventText) as [|c r]; cbn.
  - split; [tauto|]. split; [intros t i H; discriminate H|].
    intros isLoading H. rewrite orb_true_r in H. discriminate H.
  - split; [split; discriminate|]. split; [|eauto].
    intros t i H. injection H as <- <-.
    split; [reflexivity|]. destruct shipmentId; split; congruence.
Qed.

Lemma handleSubmit_submits_non_blank_witness :
  exists call,
    EventInput.handleSubmit (js.lit " Truck delayed ") [] = Some call.
Proof.
  apply (proj2 (proj2 (handleSubmit_submits_non_blank (js.lit " Truck delayed ") []))
           false).
  vm_compute. reflexivity.
Defined.

(** X23. The confidence badge follows the score: a higher integer score
    never gets a lower badge, the badge is [high] exactly from 80 up and
    [low] exactly below 60. *)
Theorem confidenceColor_is_monotone (a b : Z) :
  (a <= b ->
   ReportDisplay.rank (ReportDisplay.confidenceColor a)
   <= ReportDisplay.rank (ReportDisplay.confidenceColor b)) /\
  (ReportDisplay.confidenceColor a = ReportDisplay.high <-> 80 <= a) /\
  (ReportDisplay.confidenceColor a = ReportDisplay.low <-> a < 60).
Proof.
  unfold ReportDisplay.confidenceColor.
  destruct (Z.leb_spec 80 a), (Z.leb_spec 60 a), (Z.leb_spec 80 b), (Z.leb_spec 60 b);
    cbn; repeat split; intros; try lia; try discriminate; try reflexivity.
Qed.

Lemma confidenceColor_is_monotone_witness :
  ReportDisplay.rank (ReportDisplay.confidenceColor 70)
  <= ReportDisplay.rank (ReportDisplay.confidenceColor 82).
Proof.
  apply (proj1 (confidenceColor_is_monotone 70 82)). lia.
Defined.

(** X24. A submission always ends with the loading flag cleared. When
    [submitEvent] returns, what it returns becomes the result and no error
    is shown. Were it to throw, the previous result would stay in place
    and the error shown would be the message of the thrown value when
    that is a non-empty string, ["Failed to process event"] when the
    message is missing or empty, and nothing at all when the thrown value
    is [null] or [undefined]. With the [submitEvent] of this repository
    that never happens: it returns the body of the answer when [fetch]
    resolves with [ok] and the body parses, and its mock response in every
    other case, so every submission ends with a result and without an
    error. The mock response is a success for the description typed, with
    the shipment id given (or ["SHIP-"] and the time when none is given)
    and a confidence score of 82, which the report shows with the [high]
    badge. *)
Theorem handleSubmitEvent_outcome :
  (forall R (api : App.Awaited R) (st : App.State R),
      App.isLoading (App.handleSubmitEvent api st) = false) /\
  (forall R (response : R) (st : App.State R),
      App.result (App.handleSubmitEvent (App.Fulfilled response) st) = Some response /\
      App.error (App.handleSubmitEvent (App.Fulfilled response) st) = None) /\
  (forall R (st : App.State R) (message : jsstring),
      message <> [] ->
      App.result (App.handleSubmitEvent (App.Threw (App.WithMessage (Some message))) st)
      = App.result st /\
      App.error (App.handleSubmitEvent (App.Threw (App.WithMessage (Some message))) st)
      = Some message) /\
  (forall R (st : App.State R) (message : option jsstring),
      message = None \/ message = Some [] ->
      App.result (App.handleSubmitEvent (App.Threw (App.WithMessage message)) st)
      = App.result st /\
      App.error (App.handleSubmitEvent (App.Threw (App.WithMessage message)) st)
      = Some (js.lit "Failed to process event")) /\
  (forall R (st : App.State R),
      App.result (App.handleSubmitEvent (App.Threw App.Nullish) st) = App.result st /\
      App.error (App.handleSubmitEvent (App.Threw App.Nullish) st) = None) /\
  (forall fetched eventDescription shipmentId iso now_id now_tx st,
      let response :=
        ApiService.submitEvent fetched eventDescription shipmentId iso now_id now_tx in
      let st' := App.handleSubmitEvent (App.Fulfilled response) st in
      App.isLoading st' = false /\
      App.error st' = None /\
      App.result st' = Some response) /\
  (forall status data eventDescription shipmentId iso now_id now_tx,
      ApiService.submitEvent
        (js.Resolved (ApiService.mkFetchResponse true status (js.Resolved data)))
        eventDescription shipmentId iso now_id now_tx
      = data) /\
  (forall fetched eventDescription shipmentId iso now_id now_tx,
      (forall status data,
          fetched
          <> js.Resolved (ApiService.mkFetchResponse true status (js.Resolved data))) ->
      let mock :=
        ApiService.getMockResponse eventDescription shipmentId iso now_id now_tx in
      ApiService.submitEvent fetched eventDescription shipmentId iso now_id now_tx = mock /\
      ApiService.success mock = true /\
      ApiService.event_description mock = eventDescription /\
      ApiService.shipment_id mock
      = js.or_else shipmentId (js.lit "SHIP-" ++ js.number_to_string now_id) /\
      ApiService.ai_report_confidence_score mock = 82 /\
      ReportDisplay.confidenceColor (ApiService.ai_report_confidence_score mock)
      = ReportDisplay.high).
Proof.
  split; [reflexivity|]. split; [intros; split; reflexivity|].
  split; [intros R st [|c r] Hm; [congruence|split; reflexivity]|].
  split; [intros R st message [->| ->]; split; reflexivity|].
  split; [intros; split; reflexivity|].
  split; [intros; repeat split; reflexivity|].
  split; [reflexivity|].
  intros fetched eventDescription shipmentId iso now_id now_tx Hfetched mock.
  split; [|repeat split; reflexivity].
  unfold ApiService.submitEvent.
  destruct fetched as [[[|] status [data|e]]|e]; try reflexivity.
  destruct (Hfetched status data). reflexivity.
Qed.

Lemma handleSubmitEvent_outcome_witness :
  ApiService.submitEvent (js.Rejected (js.lit "Failed to fetch"))
    (js.lit "Truck delayed") None (js.lit "2025-01-01T00:00:00.000Z") 1735689600000 1735689600001
  = ApiService.getMockResponse
      (js.lit "Truck delayed") None (js.lit "2025-01-01T00:00:00.000Z")
      1735689600000 1735689600001.
Proof.
  apply (proj2 (proj2 (proj2 (proj2 (proj2 (proj2 (proj2 handleSubmitEvent_outcome))))))
           (js.Rejected (js.lit "Failed to fetch"))).
  intros status data H. discriminate H.
Defined.
